(** * actableai: intervention-effect predictor, preprocessing helpers and
      Bayesian-regression priors

    A shallow embedding of
      - [actableai/utils/preprocessing.py]   (module [Preprocessing]),
      - [actableai/intervention/model.py]    (module [Intervention]),
      - [actableai/tasks/bayesian_regression.py] (module [BayesianRegression]),
    over a small model of pandas data frames (module [Frame]).

    Conventions.
      - A Python exception is a value of [exn]; a function that may raise
        returns [exn + A].  Methods of [AAIInterventionEffectPredictor]
        that read or write [self] run in the monad [M] of module
        [Intervention], whose state survives an exception, as the
        attributes of a Python object do.
      - A finite double is modelled by the rational it denotes ([Q]); the
        three special doubles are the cells [NaN], [NegInf] and [PosInf].
        Rounding to the nearest double is not modelled.
      - A Python [str] is a Rocq [string], read as a sequence of code
        points below 256. *)

From Stdlib Require Import ZArith QArith Qminmax List String Ascii Bool Lia.
From stdpp Require Import gmap strings pretty.
Import ListNotations.
Local Open Scope string_scope.

(* ================================================================== *)
(** * Python exceptions *)

Inductive exn :=
  | NotFittedError
  | NameError (name : string)
  | KeyError (key : string)
  | TypeError
  | AttributeError
  | ZeroDivisionError
  | ValueError (msg : string).

Definition ebind {A B : Type} (x : exn + A) (k : A -> exn + B) : exn + B :=
  match x with
  | inl e => inl e
  | inr a => k a
  end.

Fixpoint emapM {A B : Type} (f : A -> exn + B) (l : list A) : exn + list B :=
  match l with
  | [] => inr []
  | a :: l' =>
      ebind (f a) (fun b => ebind (emapM f l') (fun bs => inr (b :: bs)))
  end.

(* ================================================================== *)
(** * Data frames *)

Module Frame.

(** The scalar held by one cell of a column.  [NaN] is pandas' missing
    value ([None] is mapped to it by [DataFrame.replace] and by the
    [.str] accessor). *)
Inductive cell :=
  | NaN
  | NegInf
  | PosInf
  | Num (q : Q)
  | Str (s : string).

(** A column label: a name, or a position of the [RangeIndex] that
    [pd.DataFrame(ndarray)] creates. *)
Inductive label :=
  | Name (s : string)
  | Pos (i : nat).

(** What [select_dtypes(include=np.number)] looks at. *)
Inductive dtype := number | object.

Record column := mkColumn {
  col_name : label;
  col_dtype : dtype;
  col_values : list cell
}.

(** A data frame is the list of its columns, in order; the columns of one
    frame have the same number of cells. *)
Definition frame := list column.

Definition label_eqb (a b : label) : bool :=
  match a, b with
  | Name s, Name t => String.eqb s t
  | Pos i, Pos j => Nat.eqb i j
  | _, _ => false
  end.

(** Equality of two scalars as [Series.unique] and the imputers' counting
    see it: two missing values are the same value. *)
Definition cell_eqb (a b : cell) : bool :=
  match a, b with
  | NaN, NaN => true
  | NegInf, NegInf => true
  | PosInf, PosInf => true
  | Num p, Num q => Qeq_bool p q
  | Str s, Str t => String.eqb s t
  | _, _ => false
  end.

Definition isna (c : cell) : bool :=
  match c with NaN => true | _ => false end.

(** [len(df)]: the number of rows. *)
Definition nrows (df : frame) : nat :=
  match df with
  | [] => 0
  | c :: _ => length (col_values c)
  end.

(** [df.columns]. *)
Definition columns (df : frame) : list label := map col_name df.

(** [name in names] for a list of column names. *)
Definition mem (n : label) (names : list label) : bool :=
  existsb (label_eqb n) names.

(** [df[[name]]]: every column carrying that label, [KeyError] when there
    is none. *)
Definition getitem (df : frame) (name : string) : exn + frame :=
  match List.filter (fun c => label_eqb (col_name c) (Name name)) df with
  | [] => inl (KeyError name)
  | cs => inr cs
  end.

(** [df[names]] for a list of names: the columns in the order of the
    list. *)
Definition getitems (df : frame) (names : list string) : exn + frame :=
  ebind (emapM (getitem df) names) (fun fs => inr (concat fs)).

(** [df[name]] as a Series: the first column of that name. *)
Definition getseries (df : frame) (name : string) : exn + column :=
  match List.filter (fun c => label_eqb (col_name c) (Name name)) df with
  | [] => inl (KeyError name)
  | c :: _ => inr c
  end.

(** [Series.unique()]: the distinct values in order of first appearance;
    a missing value counts as a value. *)
Fixpoint unique_acc (seen : list cell) (l : list cell) : list cell :=
  match l with
  | [] => []
  | x :: l' =>
      if existsb (cell_eqb x) seen then unique_acc seen l'
      else x :: unique_acc (x :: seen) l'
  end.

Definition unique (l : list cell) : list cell := unique_acc [] l.


End Frame.

Import Frame.

(* ================================================================== *)
(** * [sklearn.impute.SimpleImputer], as its documentation describes it

    The imputer works column by column: the statistic of a column is
    computed from its non-missing cells and replaces the missing ones.
    A column with no non-missing cell has no statistic and is discarded
    from the output, unless the strategy is [constant]. *)

Module Sklearn.

Inductive strategy :=
  | median
  | most_frequent
  | constant (fill_value : cell).

Fixpoint insert_sorted (x : Q) (l : list Q) : list Q :=
  match l with
  | [] => [x]
  | y :: l' => if Qle_bool x y then x :: l else y :: insert_sorted x l'
  end.

Definition sort (l : list Q) : list Q := fold_right insert_sorted [] l.

(** [np.median] of a non-empty list: the middle value, or the mean of
    the two middle values. *)
Definition median_of (l : list Q) : option Q :=
  let s := sort l in
  let n := length s in
  match n with
  | O => None
  | _ =>
      if Nat.even n
      then Some (Qred ((nth (n / 2 - 1) s 0%Q + nth (n / 2) s 0%Q) / 2)%Q)
      else Some (Qred (nth (n / 2) s 0%Q))
  end.

Definition count (x : cell) (l : list cell) : nat :=
  length (List.filter (cell_eqb x) l).

(** The order Python puts on two scalars of one kind. *)
Definition cell_leb (a b : cell) : bool :=
  match a, b with
  | Num p, Num q => Qle_bool p q
  | Str s, Str t => String.leb s t
  | NegInf, _ => true
  | _, PosInf => true
  | _, _ => false
  end.

Definition same_kind (a b : cell) : bool :=
  match a, b with
  | Str _, Str _ => true
  | Str _, _ | _, Str _ => false
  | _, _ => true
  end.

(** [min] of a non-empty list of scalars; comparing a string with a
    number raises. *)
Fixpoint min_cell (x : cell) (l : list cell) : exn + cell :=
  match l with
  | [] => inr x
  | y :: l' =>
      if same_kind x y then min_cell (if cell_leb x y then x else y) l'
      else inl TypeError
  end.

(** The most frequent value, the smallest one among several. *)
Definition most_frequent_of (l : list cell) : exn + option cell :=
  let vals := unique l in
  let best := fold_right Nat.max 0 (map (fun v => count v l) vals) in
  match List.filter (fun v => Nat.eqb (count v l) best) vals with
  | [] => inr None
  | v :: vs => ebind (min_cell v vs) (fun m => inr (Some m))
  end.

Definition numbers_of (l : list cell) : list Q :=
  flat_map (fun c => match c with Num q => [q] | _ => [] end) l.

Definition is_str (c : cell) : bool :=
  match c with Str _ => true | _ => false end.

Definition is_inf (c : cell) : bool :=
  match c with NegInf | PosInf => true | _ => false end.

(** The statistic of one column: [None] when every cell is missing. *)
Definition statistic (s : strategy) (l : list cell) : exn + option cell :=
  let present := List.filter (fun c => negb (isna c)) l in
  match s with
  | median => inr (option_map Num (median_of (numbers_of present)))
  | most_frequent => most_frequent_of present
  | constant v => inr (Some v)
  end.

Definition fill (v : cell) (l : list cell) : list cell :=
  map (fun c => if isna c then v else c) l.

(** The input checks of [fit]: [median] needs numeric data, a numeric
    array holds no infinity, and a numeric array is filled with a number
    only. *)
Definition validate (s : strategy) (X : frame) : exn + unit :=
  let cells := flat_map col_values X in
  let numeric_array :=
    forallb (fun c => match col_dtype c with number => true | object => false end) X in
  match s with
  | median =>
      if existsb is_str cells
      then inl (ValueError "Cannot use median strategy with non-numeric data")
      else if existsb is_inf cells
      then inl (ValueError "Input contains infinity")
      else inr tt
  | most_frequent =>
      if numeric_array && existsb is_inf cells
      then inl (ValueError "Input contains infinity")
      else inr tt
  | constant v =>
      if numeric_array && existsb is_inf cells
      then inl (ValueError "Input contains infinity")
      else if numeric_array && is_str v
      then inl (ValueError "fill_value should be a number for numerical data")
      else inr tt
  end.

(** The dtype of the array [fit_transform] returns: [median] converts
    its input to floats; the other strategies keep the dtype of the
    array [X] is read as, floats when every column is numeric and
    objects otherwise. *)
Definition output_dtype (s : strategy) (X : frame) : dtype :=
  match s with
  | median => number
  | most_frequent | constant _ =>
      if forallb (fun c => match col_dtype c with number => true | object => false end) X
      then number else object
  end.

(** [SimpleImputer(strategy).fit_transform(X)]: the columns of the
    returned array. *)
Definition fit_transform (s : strategy) (X : frame) : exn + list (list cell) :=
  ebind (validate s X) (fun _ =>
  ebind (emapM (fun c => statistic s (col_values c)) X) (fun stats =>
  inr (flat_map (fun '(c, st) =>
                   match st with
                   | Some v => [fill v (col_values c)]
                   | None => []
                   end) (combine X stats)))).

End Sklearn.

(* ================================================================== *)
(** * Assigning an array to a selection of columns *)

Module Assign.

(** [df[cols]] for names taken from [df.columns]. *)
Definition select (df : frame) (cols : list label) : frame :=
  List.filter (fun c => mem (col_name c) cols) df.

(** The selected columns take the columns of [arr] in order;
    [dtype_of c v] is the dtype the column [c] has once it holds the
    cells [v]. *)
Fixpoint put (dtype_of : column -> list cell -> dtype) (df : frame)
    (cols : list label) (arr : list (list cell)) : frame :=
  match df with
  | [] => []
  | c :: df' =>
      if mem (col_name c) cols then
        match arr with
        | v :: arr' =>
            mkColumn (col_name c) (dtype_of c v) v :: put dtype_of df' cols arr'
        | [] => c :: put dtype_of df' cols arr
        end
      else c :: put dtype_of df' cols arr
  end.

(** [df[cols] = arr] for a two-dimensional array of dtype [d]: every
    selected column is replaced by a column of the array and has the
    dtype of the array; an array with another number of columns than
    the selection is refused. *)
Definition setitem (df : frame) (cols : list label) (d : dtype)
    (arr : list (list cell)) : exn + frame :=
  if Nat.eqb (length (select df cols)) (length arr)
  then inr (put (fun _ _ => d) df cols arr)
  else inl (ValueError "Columns must be same length as key").


End Assign.

(* ================================================================== *)
(** * [actableai/utils/preprocessing.py] *)

Module Preprocessing.

(** ** [impute_df]

    The function changes [df] in place and returns nothing: the model
    returns the frame as the call leaves it, and the exception that ended
    the call, if any.

    [SimpleImputer] takes nan for the missing value and nothing else,
    and [impute_df] does not turn [None] into nan first as
    [preprocess_data] does: in the frame given to [impute_df] a [NaN]
    cell stands for nan, and a frame with a [None] cell has no model
    here. *)
Definition impute_df (df : frame)
    (numeric_imputer categorical_imputer : option Sklearn.strategy)
  : frame * option exn :=
  let numeric_cols :=
    columns (List.filter (fun c => match col_dtype c with number => true | object => false end) df) in
  let categorical_cols :=
    columns (List.filter (fun c => match col_dtype c with number => false | object => true end) df) in
  let numeric_imputer :=
    match numeric_imputer with
    | None => Sklearn.constant (Num 0%Q)
    | Some i => i
    end in
  let categorical_imputer :=
    match categorical_imputer with
    | None => Sklearn.constant (Str "NA")
    | Some i => i
    end in
  let step (cols : list label) (imp : Sklearn.strategy) (st : frame * option exn) :=
    match st with
    | (df, Some e) => (df, Some e)
    | (df, None) =>
        if Nat.ltb 0 (length cols) then
          match ebind (Sklearn.fit_transform imp (Assign.select df cols))
                      (Assign.setitem df cols
                         (Sklearn.output_dtype imp (Assign.select df cols))) with
          | inl e => (df, Some e)
          | inr df' => (df', None)
          end
        else (df, None)
    end in
  step categorical_cols categorical_imputer
    (step numeric_cols numeric_imputer (df, None)).

(** ** The pattern of [PercentageTransformer.transform]

    [^[^\S\r\n]*(\d+(?:\.\d+)?)[^\S\r\n]*%[^\S\r\n]*$] *)

(** [\d] below code point 256. *)
Definition is_digit (c : ascii) : bool :=
  let n := N_of_ascii c in (48 <=? n)%N && (n <=? 57)%N.

(** [[^\S\r\n]]: white space other than CR and LF, below code point 256
    (tab, VT, FF, FS, GS, RS, US, space, NEL, NBSP). *)
Definition is_hspace (c : ascii) : bool :=
  existsb (N.eqb (N_of_ascii c)) [9; 11; 12; 28; 29; 30; 31; 32; 133; 160]%N.

Fixpoint drop_hspace (s : string) : string :=
  match s with
  | String c r => if is_hspace c then drop_hspace r else s
  | EmptyString => s
  end.

(** The longest prefix of digits, and what follows it. *)
Fixpoint span_digits (s : string) : string * string :=
  match s with
  | String c r =>
      if is_digit c then
        let '(d, rest) := span_digits r in (String c d, rest)
      else (EmptyString, s)
  | EmptyString => (EmptyString, EmptyString)
  end.

(** [$] without [re.MULTILINE]: the end of the string, or just before a
    line feed that ends it. *)
Definition at_dollar (s : string) : bool :=
  match s with
  | EmptyString => true
  | String c EmptyString => Ascii.eqb c "010"%char
  | _ => false
  end.

(** What follows the number: white space, the percent sign, white
    space and the end.  [num] is the text of group 1. *)
Definition extract_tail (num s3 : string) : option string :=
  match drop_hspace s3 with
  | String "%"%char r => if at_dollar (drop_hspace r) then Some num else None
  | _ => None
  end.

(** [x.str.extract(pattern)[0]] on one string: the text of group 1, or
    [None] when the pattern does not match.  The character classes of the
    pattern are pairwise disjoint, so the greedy scan decides the match. *)
Definition extract (s : string) : option string :=
  let '(int_part, s2) := span_digits (drop_hspace s) in
  match int_part with
  | EmptyString => None
  | _ =>
      let '(num, s3) :=
        match s2 with
        | String "."%char r =>
            match span_digits r with
            | (EmptyString, _) => (int_part, s2)
            | (frac, r') => (int_part +:+ "." +:+ frac, r')
            end
        | _ => (int_part, s2)
        end in
      extract_tail num s3
  end.

(** ** [astype(float)] on the text of group 1 *)

Definition digit_value (c : ascii) : Z := Z.of_N (N_of_ascii c) - 48.

(** Reads [digits] and an optional [.digits]; [acc] is the numerator so
    far, [den] the power of ten of the fraction digits read, [frac] tells
    whether the point has been passed. *)
Fixpoint decimal_acc (s : string) (acc : Z) (den : positive) (frac : bool)
  : Z * positive :=
  match s with
  | EmptyString => (acc, den)
  | String c r =>
      if is_digit c then
        decimal_acc r (10 * acc + digit_value c)
          (if frac then (10 * den)%positive else den) frac
      else decimal_acc r acc den true
  end.

Definition float_of_decimal (s : string) : Q :=
  let '(n, d) := decimal_acc s 0%Z 1%positive false in Qred (n # d).

(** ** [PercentageTransformer.transform] *)

(** The column [extracted[c]]: group 1 for a string cell that matches,
    missing for every other cell. *)
Definition extracted (c : column) : list (option string) :=
  map (fun v => match v with Str s => extract s | _ => None end)
      (col_values c).

(** [parsed_rate_check = lambda x, min: x.isna().sum() >= min * len(x)] *)
Definition parsed_rate_check (x : list (option string)) (min : Q) : bool :=
  let na := length (List.filter (fun o : option string => negb (bool_decide (is_Some o))) x) in
  Qle_bool (min * inject_Z (Z.of_nat (length x)))%Q (inject_Z (Z.of_nat na)).

(** [extracted[c].astype(float)] *)
Definition astype_float (x : list (option string)) : list cell :=
  map (fun o => match o with
                | Some d => Num (float_of_decimal d)
                | None => NaN
                end) x.

(** One column of [transform]: [rate_checker] keeps the column as it is,
    otherwise the column is overwritten by the parsed floats. *)
Definition transform_column (c : column) : column :=
  let x := extracted c in
  if parsed_rate_check x (1 # 2) then c
  else mkColumn (col_name c) number (astype_float x).

(** [transform(X)]: the [.str] accessor exists on object columns only, so
    a numeric column makes [X.apply] raise. *)
Definition transform (X : frame) : exn + frame :=
  if forallb (fun c => match col_dtype c with object => true | number => false end) X
  then inr (map transform_column X)
  else inl AttributeError.

Definition fit_transform (X : frame) : exn + frame := transform X.

(** ** Vocabulary of the statements *)

Fixpoint all_chars (p : ascii -> bool) (s : string) : bool :=
  match s with
  | EmptyString => true
  | String c r => p c && all_chars p r
  end.

Definition starts_with (p : ascii -> bool) (s : string) : bool :=
  match s with
  | EmptyString => false
  | String c _ => p c
  end.

(** The pattern read as a grammar: white space, digits, optionally a
    point and digits, white space, the percent sign, white space, and
    the end of the string or a line feed that ends it.  The second
    string is the text of group 1. *)
Inductive pattern_match : string -> string -> Prop :=
  | pattern_match_intro (ws1 int frac ws2 ws3 tail : string) :
      all_chars is_hspace ws1 = true ->
      all_chars is_digit int = true -> int <> "" ->
      (frac = "" \/
       exists ds, frac = String "." ds /\ all_chars is_digit ds = true /\ ds <> "") ->
      all_chars is_hspace ws2 = true ->
      all_chars is_hspace ws3 = true ->
      (tail = "" \/ tail = String "010" "") ->
      pattern_match
        (ws1 +:+ int +:+ frac +:+ ws2 +:+ String "%" (ws3 +:+ tail))
        (int +:+ frac).

(** The cell is a string that matches the pattern. *)
Definition matches (v : cell) : bool :=
  match v with
  | Str s => bool_decide (is_Some (extract s))
  | _ => false
  end.

(** The float a matching cell stands for, missing for any other cell. *)
Definition parsed (v : cell) : cell :=
  match v with
  | Str s =>
      match extract s with
      | Some d => Num (float_of_decimal d)
      | None => NaN
      end
  | _ => NaN
  end.

Definition converted (c : column) : column :=
  mkColumn (col_name c) number (map parsed (col_values c)).

(** The number of cells that match, and of cells that do not (missing
    cells included). *)
Definition matching (c : column) : nat :=
  length (List.filter matches (col_values c)).

Definition unmatched (c : column) : nat :=
  length (List.filter (fun v => negb (matches v)) (col_values c)).

(** Percentage parsing in the words of the specification: the column is
    left untouched when fewer than half of its non-null cells match, and
    converted otherwise. *)
Definition spec_transform_column (c : column) : column :=
  let non_null := length (List.filter (fun v => negb (isna v)) (col_values c)) in
  if Nat.ltb (2 * matching c) non_null then c else converted c.

(** What [impute_df] does to a column with its default imputers. *)
Definition default_filled (c : column) : column :=
  mkColumn (col_name c) (col_dtype c)
    (Sklearn.fill
       (match col_dtype c with number => Num 0%Q | object => Str "NA" end)
       (col_values c)).

End Preprocessing.

(* ================================================================== *)
(** * [actableai/intervention/model.py] *)

Module Intervention.

(** Modelled from the spec: the result of [get_type_special_no_ag] of
    [actableai.utils], whose source is missing.  Section 4.1 of the
    specification gives its range: one of numeric, integer, category;
    [model.py] compares the result with string literals, which
    [type_special_str] provides. *)
Inductive type_special := numeric | integer | category.

Definition type_special_str (t : type_special) : string :=
  match t with
  | numeric => "numeric"
  | integer => "integer"
  | category => "category"
  end.

(** ** The objects the predictor builds *)

(** [OneHotEncoder(sparse=False, handle_unknown="ignore")]; the
    categories of each input column are known once it is fitted. *)
Record OneHotEncoder := mkEncoder {
  categories_ : option (list (list cell))
}.

Inductive problem_type := regression | multiclass.

Record TabularPredictor := mkTabularPredictor {
  tp_label : string;
  tp_problem_type : problem_type
}.

Record MultilabelPredictor := mkMultilabelPredictor {
  mp_labels : list label;
  mp_problem_types : list problem_type
}.

(** The arguments shared by the two wrappers: [hyperparameters],
    [presets], [ag_args_fit] and the parameters of the feature
    generator.  Hyperparameters are not inspected and stay opaque.  The
    temporary directory each predictor gets from [mkdtemp] is left out. *)
Record automl_args := mkArgs {
  hyperparameters : option string;
  args_presets : option string;
  ag_num_gpus : Z;
  ag_drop_unique : bool;
  feature_generator : list (string * string)
}.

(** An argument that is not passed, or passed as [None], is [None]. *)
Inductive wrapper :=
  | SKLearnTabularWrapper
      (predictor : TabularPredictor) (x_w_columns : list label)
      (args : automl_args) (holdout_frac : option Q)
  | SKLearnMultilabelWrapper
      (ag_predictor : MultilabelPredictor) (x_w_columns : option (list label))
      (args : automl_args) (holdout_frac : option Q).

Definition is_tabular (w : wrapper) : bool :=
  match w with
  | SKLearnTabularWrapper _ _ _ _ => true
  | SKLearnMultilabelWrapper _ _ _ _ => false
  end.

Definition is_multilabel (w : wrapper) : bool := negb (is_tabular w).

Definition holdout_frac_of (w : wrapper) : option Q :=
  match w with
  | SKLearnTabularWrapper _ _ _ h => h
  | SKLearnMultilabelWrapper _ _ _ h => h
  end.

Definition problem_type_of (w : wrapper) : list problem_type :=
  match w with
  | SKLearnTabularWrapper p _ _ _ => [tp_problem_type p]
  | SKLearnMultilabelWrapper p _ _ _ => mp_problem_types p
  end.

Inductive DMLFeaturizer := mkDMLFeaturizer.

Inductive dml :=
  | LinearDML
      (model_t model_y : wrapper) (featurizer : option DMLFeaturizer)
      (cv : Z) (linear_first_stages : bool) (discrete_treatment : bool)
  | NonParamDML
      (model_t model_y model_final : wrapper) (featurizer : option DMLFeaturizer)
      (cv : Z) (discrete_treatment : bool).

Definition is_linear (m : dml) : bool :=
  match m with
  | LinearDML _ _ _ _ _ _ => true
  | NonParamDML _ _ _ _ _ _ => false
  end.

(** ** The attributes of [AAIInterventionEffectPredictor] *)

Record predictor := mkPredictor {
  target : string;
  current_intervention_column : string;
  new_intervention_column : string;
  common_causes : option (list string);
  causal_cv : Z;
  causal_hyperparameters : option string;
  cate_alpha : option Q;
  presets : option string;
  model_directory : option string;
  num_gpus : Z;
  feature_importance : bool;
  drop_unique : bool;
  drop_useless_features : bool;
  automl_pipeline_feature_parameters : list (string * string);
  causal_model : option dml;
  outcome_featurizer : option OneHotEncoder
}.

Definition __init__
    (target current_intervention_column new_intervention_column : string)
    (common_causes : option (list string)) (causal_cv : option Z)
    (causal_hyperparameters : option string) (cate_alpha : option Q)
    (presets model_directory : option string) (num_gpus : Z)
    (feature_importance drop_unique drop_useless_features : bool)
    (automl_pipeline_feature_parameters : option (list (string * string)))
  : predictor :=
  {| target := target;
     current_intervention_column := current_intervention_column;
     new_intervention_column := new_intervention_column;
     common_causes := common_causes;
     causal_cv := match causal_cv with None => 1%Z | Some cv => cv end;
     causal_hyperparameters := causal_hyperparameters;
     cate_alpha := cate_alpha;
     presets := presets;
     model_directory := model_directory;
     num_gpus := num_gpus;
     feature_importance := feature_importance;
     drop_unique := drop_unique;
     drop_useless_features := drop_useless_features;
     automl_pipeline_feature_parameters :=
       match automl_pipeline_feature_parameters with
       | None => []
       | Some p => p
       end;
     causal_model := None;
     outcome_featurizer := None |}.

Definition set_causal_model (m : option dml) (p : predictor) : predictor :=
  {| target := target p;
     current_intervention_column := current_intervention_column p;
     new_intervention_column := new_intervention_column p;
     common_causes := common_causes p;
     causal_cv := causal_cv p;
     causal_hyperparameters := causal_hyperparameters p;
     cate_alpha := cate_alpha p;
     presets := presets p;
     model_directory := model_directory p;
     num_gpus := num_gpus p;
     feature_importance := feature_importance p;
     drop_unique := drop_unique p;
     drop_useless_features := drop_useless_features p;
     automl_pipeline_feature_parameters := automl_pipeline_feature_parameters p;
     causal_model := m;
     outcome_featurizer := outcome_featurizer p |}.

Definition set_outcome_featurizer (f : option OneHotEncoder) (p : predictor)
  : predictor :=
  {| target := target p;
     current_intervention_column := current_intervention_column p;
     new_intervention_column := new_intervention_column p;
     common_causes := common_causes p;
     causal_cv := causal_cv p;
     causal_hyperparameters := causal_hyperparameters p;
     cate_alpha := cate_alpha p;
     presets := presets p;
     model_directory := model_directory p;
     num_gpus := num_gpus p;
     feature_importance := feature_importance p;
     drop_unique := drop_unique p;
     drop_useless_features := drop_useless_features p;
     automl_pipeline_feature_parameters := automl_pipeline_feature_parameters p;
     causal_model := causal_model p;
     outcome_featurizer := f |}.

Definition args_of (self : predictor) : automl_args :=
  {| hyperparameters := causal_hyperparameters self;
     args_presets := presets self;
     ag_num_gpus := num_gpus self;
     ag_drop_unique := drop_unique self;
     feature_generator := automl_pipeline_feature_parameters self |}.

(** ** State and exceptions

    A method runs on the predictor's attributes and on the record of the
    calls made to the estimation libraries.  An exception ends the
    method and leaves the attributes as they are at that point. *)

Inductive call :=
  | call_onehot_fit_transform
  | call_logit
  | call_dml_fit
  | call_effect
  | call_effect_interval.

Record world := mkWorld {
  self : predictor;
  calls : list call
}.

Definition M (A : Type) : Type := world -> (exn + A) * world.

Definition ret {A : Type} (a : A) : M A := fun w => (inr a, w).

Definition bind {A B : Type} (m : M A) (k : A -> M B) : M B :=
  fun w =>
    match m w with
    | (inl e, w') => (inl e, w')
    | (inr a, w') => k a w'
    end.

Definition raise {A : Type} (e : exn) : M A := fun w => (inl e, w).

Definition lift {A : Type} (x : exn + A) : M A := fun w => (x, w).

Definition get_self : M predictor := fun w => (inr (self w), w).

Definition modify_self (f : predictor -> predictor) : M unit :=
  fun w => (inr tt, mkWorld (f (self w)) (calls w)).

Definition log (c : call) : M unit :=
  fun w => (inr tt, mkWorld (self w) (calls w ++ [c])).

Declare Scope py_scope.
Delimit Scope py_scope with py.
Notation "x <- c ;; k" := (bind c (fun x => k))
  (at level 100, c at next level, right associativity) : py_scope.
Notation "c ;; k" := (bind c (fun _ => k))
  (at level 100, right associativity) : py_scope.
Local Open Scope py_scope.

(** ** Python name resolution inside [predict_effect]

    A name that is neither a parameter nor assigned in the function body
    is looked up among the names bound at module level, then among the
    builtins, and raises [NameError] when it is in neither. *)

Inductive pyobj := PyGlobal (name : string).

(** The names [model.py] binds at module level: its imports and its one
    class. *)
Definition module_globals : gset string :=
  list_to_set
    ["logging"; "mkdtemp"; "Any"; "Optional"; "List"; "Dict"; "Tuple";
     "Union"; "np"; "pd"; "NotFittedError"; "SimpleImputer";
     "OneHotEncoder"; "logit"; "expit"; "TabularPredictor";
     "AutoMLPipelineFeatureGenerator"; "LinearDML"; "NonParamDML";
     "SKLearnMultilabelWrapper"; "SKLearnTabularWrapper";
     "LOGIT_MAX_VALUE"; "LOGIT_MIN_VALUE"; "get_type_special_no_ag";
     "MultilabelPredictor"; "DMLFeaturizer";
     "AAIInterventionEffectPredictor"].

(** The builtins the module refers to. *)
Definition builtins : gset string := list_to_set ["len"; "list"; "str"].

Definition load_global (name : string) : M pyobj :=
  if bool_decide (name ∈ module_globals ∪ builtins)
  then ret (PyGlobal name)
  else raise (NameError name).

(** [df[[g]]] for an object [g] bound at module level: a module, a class
    or a function is the label of no column. *)
Definition getitem_obj (df : frame) (g : pyobj) : exn + frame :=
  match g with PyGlobal n => inl (KeyError n) end.

(** [g + "_intervened"]: none of those objects supports [+] with a
    [str]. *)
Definition add_str (g : pyobj) (suffix : string) : exn + string :=
  inl TypeError.

(** [g.effect_interval]: none of those objects has the attribute. *)
Definition getattr_effect_interval (g : pyobj) : exn + unit :=
  inl AttributeError.

(** ** Values computed by the estimation libraries

    What [econml], [numpy], [scipy] and the encoder return inside
    [predict_effect] is kept as the expression that produces it. *)
Inductive value :=
  | VFrame (f : frame)
  | VEffect (m : dml) (X : option frame) (T0 T1 : frame)
  | VEffectLow (m : pyobj) (X : option frame) (T0 T1 : frame) (alpha : pyobj)
  | VEffectHigh (m : pyobj) (X : option frame) (T0 T1 : frame) (alpha : pyobj)
  | VAdd (a b : value)
  | VSqueeze (a : value)
  | VFlatten (a : value)
  | VExpit (a : value)
  | VInverseTransform (enc : OneHotEncoder) (a : value)
  | VDataFrame (a : value).

(** Whether the inverse logit takes part in a value. *)
Fixpoint applies_expit (v : value) : bool :=
  match v with
  | VFrame _ | VEffect _ _ _ _ | VEffectLow _ _ _ _ _
  | VEffectHigh _ _ _ _ _ => false
  | VAdd a b => applies_expit a || applies_expit b
  | VSqueeze a | VFlatten a | VDataFrame a => applies_expit a
  | VExpit _ => true
  | VInverseTransform _ a => applies_expit a
  end.

(** ** The encoder, [logit] and [clip] on frames *)

(** The order [np.unique] sorts categories by; a missing value comes
    last. *)
Definition category_leb (a b : cell) : bool :=
  match a, b with
  | _, NaN => true
  | NaN, _ => false
  | _, _ => Sklearn.cell_leb a b
  end.

Fixpoint insert_category (x : cell) (l : list cell) : list cell :=
  match l with
  | [] => [x]
  | y :: l' => if category_leb x y then x :: l else y :: insert_category x l'
  end.

(** The sorted distinct values of one column; strings and numbers in one
    column cannot be sorted. *)
Definition sort_categories (l : list cell) : exn + list cell :=
  if forallb (fun y =>
       forallb (fun z => Sklearn.same_kind y z || isna y || isna z) l) l
  then inr (fold_right insert_category [] l)
  else inl TypeError.

Definition onehot_categories (X : frame) : exn + list (list cell) :=
  emapM (fun c => sort_categories (unique (col_values c))) X.

(** [pd.DataFrame(ndarray)]: the columns are labelled by position. *)
Definition of_ndarray (cols : list (list cell)) : frame :=
  imap (fun i v => mkColumn (Pos i) number v) cols.

(** One indicator column for every category of every input column. *)
Definition onehot_transform (cats : list (list cell)) (X : frame) : frame :=
  of_ndarray
    (flat_map
       (fun '(c, cs) =>
          map (fun cat =>
                 map (fun v => if cell_eqb v cat then Num 1%Q else Num 0%Q)
                     (col_values c)) cs)
       (combine X cats)).

(** [DataFrame.clip(lower, upper)] on one cell: the two bounds are put in
    order first, and a missing value stays missing. *)
Definition clip_cell (lower upper : Q) (c : cell) : exn + cell :=
  let lo := Qmin lower upper in
  let hi := Qmax lower upper in
  match c with
  | NaN => inr NaN
  | NegInf => inr (Num lo)
  | PosInf => inr (Num hi)
  | Num q =>
      inr (Num (if Qle_bool q hi then (if Qle_bool lo q then q else lo) else hi))
  | Str _ => inl TypeError
  end.

Definition map_frame (f : cell -> exn + cell) (df : frame) : exn + frame :=
  emapM (fun c =>
           ebind (emapM f (col_values c)) (fun v =>
           inr (mkColumn (col_name c) number v))) df.

Definition clip (lower upper : Q) (df : frame) : exn + frame :=
  map_frame (clip_cell lower upper) df.

(** ** The methods *)

Section Methods.

(** The feature classifier. *)
Variable get_type_special_no_ag : column -> type_special.

(** The two constants of [actableai.intervention.config], whose source
    is missing. *)
Variable LOGIT_MIN_VALUE LOGIT_MAX_VALUE : Q.

(** [scipy.special.logit] on a finite double. *)
Variable logit : Q -> cell.

(** The two things [df.loc[:, cols] = arr] takes from the way pandas
    stores the frame (see [Assign.loc_setitem]). *)
Variable loc_dtype : frame -> column -> list cell -> dtype.
Variable one_block : frame -> bool.

(** [type_special = df.apply(get_type_special_no_ag)]
    [num_cols = (type_special == "numeric") | (type_special == "integer")]
    [num_cols = list(df.loc[:, num_cols].columns)] *)
Definition num_cols (df : frame) : list label :=
  columns
    (List.filter
       (fun c =>
          let type_special := type_special_str (get_type_special_no_ag c) in
          String.eqb type_special "numeric" || String.eqb type_special "integer")
       df).


(** [xw_col = []; if X is not None: xw_col += list(X.columns)] *)
Definition xw_col (X : option frame) : list label :=
  match X with
  | Some x => columns x
  | None => []
  end.

(** Python's [/] on two lengths. *)
Definition true_div (n m : nat) : exn + Q :=
  match m with
  | O => inl ZeroDivisionError
  | S _ => inr (Qred (Z.of_nat n # Pos.of_nat m))
  end.

Definition _generate_model_t (self : predictor) (X : option frame) (T : frame)
  : exn + wrapper :=
  let num_cols := num_cols T in
  let model_t_problem_type :=
    if mem (Name (current_intervention_column self)) num_cols
    then regression else multiclass in
  ebind
    match model_t_problem_type with
    | multiclass =>
        ebind (getseries T (current_intervention_column self)) (fun t =>
        ebind (true_div (length (unique (col_values t))) (nrows T)) (fun q =>
        inr (Some q)))
    | regression => inr None
    end (fun model_t_holdout_frac =>
  let model_t_predictor := mkTabularPredictor "t" model_t_problem_type in
  inr (SKLearnTabularWrapper model_t_predictor (xw_col X) (args_of self)
         model_t_holdout_frac)).

Definition _generate_model_y (self : predictor) (X : option frame) (Y : frame)
  : wrapper :=
  if Nat.eqb (length (columns Y)) 1 then
    SKLearnTabularWrapper (mkTabularPredictor "y" regression) (xw_col X)
      (args_of self) None
  else
    SKLearnMultilabelWrapper
      (mkMultilabelPredictor (columns Y)
         (repeat regression (length (columns Y))))
      (Some (xw_col X)) (args_of self) None.

Definition _generate_model_final (self : predictor) (T Y : frame) : wrapper :=
  if negb (Nat.eqb (length (columns Y)) 1) then
    SKLearnTabularWrapper (mkTabularPredictor "y_res" regression) (columns T)
      (args_of self) None
  else
    SKLearnMultilabelWrapper
      (mkMultilabelPredictor (columns Y)
         (repeat regression (length (columns Y))))
      None (args_of self) None.

(** [self.common_causes and len(self.common_causes) != 0]: [None] and the
    empty list are both false. *)
Definition has_common_causes (self : predictor) : bool :=
  match common_causes self with
  | None => false
  | Some cc => negb (Nat.eqb (length cc) 0)
  end.

(** [df[self.common_causes] if self.common_causes and
    len(self.common_causes) > 0 else None] *)
Definition select_common_causes (self : predictor) (df : frame)
  : exn + option frame :=
  match common_causes self with
  | Some cc =>
      if Nat.ltb 0 (length cc)
      then ebind (getitems df cc) (fun x => inr (Some x))
      else inr None
  | None => inr None
  end.

Definition _generate_dml_model (self : predictor)
    (model_t model_y model_final : wrapper) (X : option frame) (T : frame)
  : exn + dml :=
  ebind (getseries T (current_intervention_column self)) (fun t =>
  let T_type := type_special_str (get_type_special_no_ag t) in
  if has_common_causes self
     || bool_decide (is_Some (cate_alpha self))
     || (String.eqb T_type "categorical"
         && Nat.ltb 2 (length (unique (col_values t))))
  then
    inr (LinearDML model_t model_y
           (match common_causes self with
            | None => None
            | Some cc =>
                if Nat.eqb (length cc) 0 then None else Some mkDMLFeaturizer
            end)
           (causal_cv self) false (String.eqb T_type "categorical"))
  else
    inr (NonParamDML model_t model_y model_final
           (match X with None => None | Some _ => Some mkDMLFeaturizer end)
           (causal_cv self) (String.eqb T_type "categorical"))).

(** [logit] on one cell: a missing or infinite input gives [nan], a
    string is refused. *)
Definition logit_cell (c : cell) : exn + cell :=
  match c with
  | Num p => inr (logit p)
  | NaN | NegInf | PosInf => inr NaN
  | Str _ => inl TypeError
  end.

Definition logit_frame (df : frame) : exn + frame := map_frame logit_cell df.

(** [self.outcome_featurizer.fit_transform(X)]: the encoder held by the
    attribute is the one that is fitted. *)
Definition outcome_featurizer_fit_transform (X : frame) : M frame :=
  log call_onehot_fit_transform ;;
  cats <- lift (onehot_categories X) ;;
  modify_self (set_outcome_featurizer (Some (mkEncoder (Some cats)))) ;;
  ret (onehot_transform cats X).

Definition _generate_TYX (df : frame) (target_proba : option frame)
  : M (frame * frame * frame * option frame) :=
  self <- get_self ;;
  let num_cols := num_cols df in
  X <- lift (select_common_causes self df) ;;
  Y <- (if mem (Name (target self)) num_cols
        then lift (getitem df (target self))
        else
          modify_self (set_outcome_featurizer (Some (mkEncoder None))) ;;
          Y <- match target_proba with
               | Some proba => ret proba
               | None =>
                   t <- lift (getitem df (target self)) ;;
                   outcome_featurizer_fit_transform t
               end ;;
          log call_logit ;;
          L <- lift (logit_frame Y) ;;
          lift (clip LOGIT_MIN_VALUE LOGIT_MAX_VALUE L)) ;;
  T0 <- lift (getitem df (current_intervention_column self)) ;;
  T1 <- lift (getitem df (new_intervention_column self)) ;;
  ret (T0, T1, Y, X).

(** [fit]; [dml_fit] is how the call [self.causal_model.fit(...)] into
    econml ends: normally, or with the exception it raises. *)
Definition fit (dml_fit : option exn) (df : frame) (target_proba : option frame)
  : M unit :=
  tyx <- _generate_TYX df target_proba ;;
  let '(T0, _, Y, X) := tyx in
  self <- get_self ;;
  model_t <- lift (_generate_model_t self X T0) ;;
  let model_y := _generate_model_y self X Y in
  let model_final := _generate_model_final self T0 Y in
  m <- lift (_generate_dml_model self model_t model_y model_final X T0) ;;
  modify_self (set_causal_model (Some m)) ;;
  log call_dml_fit ;;
  match dml_fit with
  | Some e => raise e
  | None => ret tt
  end.

(** The decode step of [predict_effect] (lines 246-252). *)
Definition decode (outcome_featurizer : option OneHotEncoder) (Y : frame)
    (effects : value) : value :=
  match outcome_featurizer with
  | None => VAdd (VFrame Y) (VSqueeze effects)
  | Some enc => VInverseTransform enc (VExpit (VAdd (VFrame Y) effects))
  end.

(** [predict_effect].  Line 256 of the source lacks its closing
    parenthesis; it is read as [result = result.join(pd.DataFrame(effects))].
    The names [current_intervention_column], [new_intervention_column],
    [target], [cate_alpha] and [causal_model] are written without [self.]
    and are therefore looked up at module level.

    The method returns [target_intervened]; [result] is a local that is
    dropped, and the effect columns are assigned to the caller's [df].
    The model returns the value returned together with the columns
    assigned to [df]. *)
Definition predict_effect (df : frame) (target_proba : option frame)
  : M (value * list (string * value)) :=
  let result : list (label * value) := [] in
  self0 <- get_self ;;
  match causal_model self0 with
  | None => raise NotFittedError
  | Some model =>
      tyx <- _generate_TYX df target_proba ;;
      let '(T0, T1, Y, X) := tyx in
      g0 <- load_global "current_intervention_column" ;;
      t0 <- lift (getitem_obj df g0) ;;
      g1 <- load_global "new_intervention_column" ;;
      t1 <- lift (getitem_obj df g1) ;;
      log call_effect ;;
      let effects := VEffect model X t0 t1 in
      self1 <- get_self ;;
      let target_intervened := decode (outcome_featurizer self1) Y effects in
      gt <- load_global "target" ;;
      key <- lift (add_str gt "_intervened") ;;
      let result := (result ++ [(Name key, target_intervened)])%list in
      if Nat.eqb (length (columns Y)) 1 then
        let result := (result ++ [(Pos 0, VDataFrame effects)])%list in
        let df_cols := [("intervention_effect", VFlatten effects)] in
        ga <- load_global "cate_alpha" ;;
        (* [cate_alpha is not None] holds of every module-level object *)
        gm <- load_global "causal_model" ;;
        lift (getattr_effect_interval gm) ;;
        g0' <- load_global "current_intervention_column" ;;
        t0' <- lift (getitem_obj df g0') ;;
        g1' <- load_global "new_intervention_column" ;;
        t1' <- lift (getitem_obj df g1') ;;
        log call_effect_interval ;;
        let lb := VEffectLow gm X t0' t1' ga in
        let ub := VEffectHigh gm X t0' t1' ga in
        gt1 <- load_global "target" ;;
        dt <- lift (getitem_obj df gt1) ;;
        gt2 <- load_global "target" ;;
        k_low <- lift (add_str gt2 "_intervened_low") ;;
        gt3 <- load_global "target" ;;
        dt' <- lift (getitem_obj df gt3) ;;
        gt4 <- load_global "target" ;;
        k_high <- lift (add_str gt4 "_intervened_high") ;;
        ret (target_intervened,
             (df_cols ++
              [(k_low, VAdd (VFrame dt) (VFlatten lb));
               (k_high, VAdd (VFrame dt') (VFlatten ub));
               ("intervention_effect_low", VFlatten lb);
               ("intervention_effect_high", VFlatten ub)])%list)
      else ret (target_intervened, [])
  end.


(** [check_params]: the warnings it logs, in order. *)
Definition check_params (self : predictor) (df : frame)
    (target_proba : option frame) : list string :=
  let num_cols := num_cols df in
  ((if mem (Name (target self)) num_cols && bool_decide (is_Some target_proba)
    then ["`df[target]` is a numerical column and `target_proba` is not None: `target_proba` will be ignored"]
    else [])
   ++
   (if negb (mem (Name (target self)) num_cols)
       && bool_decide (is_Some (cate_alpha self))
    then ["`df[target]` is a categorical column and `cate_alpha` is not None: `cate_alpha` will be ignored"]
    else []))%list.

End Methods.

(** ** Vocabulary of the statements *)

(** [m] appends to the record of calls only calls taken from [allowed],
    and keeps what was recorded before. *)
Definition records {A : Type} (allowed : list call) (m : M A) : Prop :=
  forall w r w', m w = (r, w') ->
    exists l, calls w' = (calls w ++ l)%list /\ incl l allowed.

(** Every cell of a frame satisfies [P]. *)
Definition cells (P : cell -> Prop) (df : frame) : Prop :=
  Forall (fun c => Forall P (col_values c)) df.

(** A cell of a class-probability matrix. *)
Definition probability (v : cell) : Prop :=
  exists p, v = Num p /\ (0 <= p <= 1)%Q.

(** A finite number between two bounds. *)
Definition within (lo hi : Q) (v : cell) : Prop :=
  exists q, v = Num q /\ (lo <= q <= hi)%Q.

(** What [scipy.special.logit] does on the doubles of the unit interval:
    minus infinity at 0, plus infinity at 1, a finite number in
    between. *)
Definition logit_spec (logit : Q -> cell) : Prop :=
  (forall p, (p == 0)%Q -> logit p = NegInf) /\
  (forall p, (p == 1)%Q -> logit p = PosInf) /\
  (forall p, (0 < p < 1)%Q -> exists q, logit p = Num q).

(** The target is among the columns classified numeric or integer. *)
Definition numeric_target (cls : column -> type_special) (self : predictor)
    (df : frame) : bool :=
  mem (Name (target self)) (num_cols cls df).

(** The current-intervention column is among the columns classified
    numeric or integer. *)
Definition numeric_treatment (cls : column -> type_special) (self : predictor)
    (T : frame) : bool :=
  mem (Name (current_intervention_column self)) (num_cols cls T).




(** A holdout fraction that leaves rows to train on. *)
Definition validation_split (h : Q) : Prop := (0 < h < 1)%Q.

(** The featurizer, the flag [discrete_treatment] and the number of
    folds a causal model was built with. *)
Definition featurizer_of (m : dml) : option DMLFeaturizer :=
  match m with
  | LinearDML _ _ f _ _ _ => f
  | NonParamDML _ _ _ f _ _ => f
  end.

Definition discrete_treatment_of (m : dml) : bool :=
  match m with
  | LinearDML _ _ _ _ _ d => d
  | NonParamDML _ _ _ _ _ d => d
  end.

Definition cv_of (m : dml) : Z :=
  match m with
  | LinearDML _ _ _ cv _ _ => cv
  | NonParamDML _ _ _ _ cv _ => cv
  end.

(** A finite number equal to one of two bounds. *)
Definition at_bound (lo hi : Q) (v : cell) : Prop :=
  exists q, v = Num q /\ ((q == lo)%Q \/ (q == hi)%Q).

(** Two predictors that differ at most in the causal model and in the
    encoder of the outcome. *)
Definition same_settings (p p' : predictor) : Prop :=
  set_causal_model None (set_outcome_featurizer None p)
    = set_causal_model None (set_outcome_featurizer None p').

(** What a method leaves of the state it starts in: the settings, a
    causal model and an encoder where there was one, and the calls
    recorded so far. *)
Definition carries_on (w w' : world) : Prop :=
  same_settings (self w) (self w') /\
  (is_Some (causal_model (self w)) -> is_Some (causal_model (self w'))) /\
  (is_Some (outcome_featurizer (self w)) ->
   is_Some (outcome_featurizer (self w'))) /\
  exists l, calls w' = (calls w ++ l)%list.

(** The two warnings of [check_params]. *)
Definition target_proba_ignored : string :=
  "`df[target]` is a numerical column and `target_proba` is not None: `target_proba` will be ignored".

Definition cate_alpha_ignored : string :=
  "`df[target]` is a categorical column and `cate_alpha` is not None: `cate_alpha` will be ignored".

End Intervention.

(* ================================================================== *)
(** * Vocabulary of the statements on imputation *)

Module Imputation.

Import Intervention.

(** The cells of a column that are not missing. *)
Definition present (c : column) : list cell :=
  List.filter (fun v => negb (isna v)) (col_values c).

(** A frame column after its missing cells took the statistic [stat],
    when it is one of the columns named [cols]; [dtype_of] is the dtype
    the assignment gives it. *)
Definition filled (dtype_of : column -> list cell -> dtype)
    (stat : column -> cell) (cols : list label) (c : column) : column :=
  if mem (col_name c) cols
  then mkColumn (col_name c)
         (dtype_of c (Sklearn.fill (stat c) (col_values c)))
         (Sklearn.fill (stat c) (col_values c))
  else c.






Definition is_number (c : column) : bool :=
  match col_dtype c with number => true | object => false end.

Definition is_object (c : column) : bool :=
  match col_dtype c with number => false | object => true end.

End Imputation.

(* ================================================================== *)
(** * [actableai/tasks/bayesian_regression.py] *)

Module BayesianRegression.

(** One entry of [priors]: a dict with the keys [column], [control],
    [degree] and [value]. *)
Record prior := mkPrior {
  prior_column : string;
  control : option string;
  degree : Z;
  value : Q
}.

(** [CheckLevels] and the check results of
    [actableai.data_validation], whose source is missing: [run] reads
    the fields [name], [level] and [message] of a result and tells the
    level [CheckLevels.CRITICAL] from every other level. *)
Inductive CheckLevels :=
  | CRITICAL
  | other_level (name : string).

Record CheckResult := mkCheck {
  name : string;
  level : CheckLevels;
  message : string
}.

(** The work [run] hands to its collaborators, in the order it happens. *)
Inductive event :=
  | ev_copy
  | ev_sanitize_timezone
  | ev_validate
  | ev_expand_polynomial
  | ev_train_test_split
  | ev_tune
  | ev_fit.

Inductive status := SUCCESS | FAILURE.

(** The dict [run] returns; the numbers under ["data"] and the runtime
    are not modelled. *)
Record result := mkResult {
  res_status : status;
  validations : list CheckResult
}.

Inductive outcome :=
  | Raise_ValueError (msg : string) (k : prior)
  | Return (r : result).

(** The key under which a prior is stored in [priors_values]. *)
Definition prior_key (k : prior) : string :=
  match control k with
  | None =>
      if (degree k =? 1)%Z then prior_column k
      else prior_column k +:+ "^" +:+ pretty (degree k)
  | Some c => prior_column k +:+ "_" +:+ c +:+ "^" +:+ pretty (degree k)
  end.

(** The loop over [priors] (lines 120-134): the first prior on a
    categorical column with a degree other than one ends it. *)
Fixpoint priors_loop (priors : list prior) (priors_values : gmap string Q)
  : prior + gmap string Q :=
  match priors with
  | [] => inr priors_values
  | k :: rest =>
      if bool_decide (is_Some (control k)) && negb (degree k =? 1)%Z
      then inl k
      else priors_loop rest (<[prior_key k := value k]> priors_values)
  end.

Definition is_critical (x : CheckResult) : bool :=
  match level x with CRITICAL => true | other_level _ => false end.

(** The fitting work after the loop (lines 136-363): the expansion, the
    split, the tuning and fit of the multivariate model, and one tuning
    and fit for each of the [univariate] expanded columns that is in
    [orig_dummy_list]. *)
Definition fitting_work (validation_split : Z) (univariate : nat) : list event :=
  ([ev_expand_polynomial]
   ++ (if (0 <? validation_split)%Z then [ev_train_test_split] else [])
   ++ [ev_tune; ev_fit]
   ++ concat (repeat [ev_tune; ev_fit] univariate))%list.

(** [run].  [data_validation_results] is what
    [BayesianRegressionDataValidator().validate(...)] returns, and
    [univariate] the number of columns the expansion reports in
    [orig_dummy_list]. *)
Definition run (data_validation_results : list (option CheckResult))
    (priors : option (list prior)) (validation_split : Z) (univariate : nat)
  : list event * outcome :=
  let before := [ev_copy; ev_sanitize_timezone; ev_validate] in
  let failed_checks := omap id data_validation_results in
  if existsb is_critical failed_checks then
    (before, Return (mkResult FAILURE failed_checks))
  else
    let priors := match priors with None => [] | Some p => p end in
    match priors_loop priors ∅ with
    | inl k =>
        (before,
         Raise_ValueError
           "Prior for categorical column can only have polynomial degree of 1" k)
    | inr priors_values =>
        ((before ++ fitting_work validation_split univariate)%list,
         Return (mkResult SUCCESS failed_checks))
    end.

(** ** Vocabulary of the statements *)

(** A prior on a categorical column with a degree other than one. *)
Definition malformed (k : prior) : bool :=
  bool_decide (is_Some (control k)) && negb (degree k =? 1)%Z.

(** Expansion, splitting, tuning and fitting. *)
Definition is_fitting_work (e : event) : bool :=
  match e with
  | ev_expand_polynomial | ev_train_test_split | ev_tune | ev_fit => true
  | ev_copy | ev_sanitize_timezone | ev_validate => false
  end.

End BayesianRegression.

(* ================================================================== *)
(** * Vocabulary of the statements on the shape of a frame *)

Module Shape.



End Shape.

(* ================================================================== *)
(** * [actableai/tasks/autogluon.py] *)

Module Autogluon.

(** The name AutoGluon knows a model by: a string, or a model class. *)
Inductive ag_name :=
  | ag_str (s : string)
  | ag_class (c : string).

#[global] Instance ag_name_eq_dec : EqDecision ag_name.
Proof. solve_decision. Defined.

Section Task.

(** The enumeration [Model] of [actableai.models.autogluon], whose
    source is missing: its members in the order of their definition and
    the value of each.  Two members are equal when they are the same
    member. *)
Context {Model : Type} `{EqDecision Model}.
Variable Model_members : list Model.
Variable Model_value : Model -> string.
Variable ag_automm tabpfn : Model.

(** Hyperparameters, their spaces and AutoGluon parameters are passed
    on and not inspected. *)
Variable pyvalue : Type.
Variable space : Type.

(** What the two methods read of a parameters class of
    [actableai.models.autogluon]. *)
Record params_class := mkParamsClass {
  supported_problem_types : list string;
  explain_samples_supported : bool;
  gpu_required : bool;
  get_autogluon_name : ag_name;
  get_autogluon_parameters : pyvalue -> space -> bool -> exn + pyvalue
}.

(** [model_params_dict.items()]: the parameters class of each model, in
    the order of the dictionary. *)
Variable model_params_dict : list (Model * params_class).

(** [get_available_models]: one turn of the loop for each item, which
    either goes on to the next item or appends the model. *)
Definition get_available_models (problem_type : string)
    (explain_samples gpu ag_automm_enabled tabpfn_enabled : bool)
  : list Model :=
  fold_left
    (fun available_models item =>
       let '(model, model_params_class) := item in
       if negb (existsb (String.eqb problem_type)
                  (supported_problem_types model_params_class))
       then available_models
       else if explain_samples
               && negb (explain_samples_supported model_params_class)
       then available_models
       else if negb gpu && gpu_required model_params_class
       then available_models
       else if bool_decide (model = ag_automm) && negb ag_automm_enabled
       then available_models
       else if bool_decide (model = tabpfn) && negb tabpfn_enabled
       then available_models
       else (available_models ++ [model])%list)
    model_params_dict [].

(** [model_params_dict[model]]; the key of the [KeyError] is shown by
    its value. *)
Definition getitem_model (model : Model) : exn + params_class :=
  match List.find (fun kv => bool_decide (fst kv = model)) model_params_dict with
  | Some kv => inr (snd kv)
  | None => inl (KeyError (Model_value model))
  end.

(** [Model(model_name)] for a name among the values of the members. *)
Definition Model_of (model_name : string) : option Model :=
  List.find (fun m => String.eqb (Model_value m) model_name) Model_members.

(** Lines 94-109: the AutoGluon name and parameters of one entry of
    [hyperparameters].  [hyperparameters_space] holds
    [hyperparameters_space.options[name].value] under each name. *)
Definition convert (hyperparameters_space : gmap string space)
    (model_name : string) (model_parameters : pyvalue)
  : exn + (ag_name * pyvalue) :=
  match Model_of model_name with
  | Some model =>
      ebind (getitem_model model) (fun model_params_class =>
      ebind (match hyperparameters_space !! model_name with
             | Some s => inr s
             | None => inl (KeyError model_name)
             end) (fun s =>
      ebind (get_autogluon_parameters model_params_class model_parameters s false)
            (fun params =>
      inr (get_autogluon_name model_params_class, params))))
  | None => inr (ag_str model_name, model_parameters)
  end.

(** Lines 113-116 on a dictionary kept as the list of its items in the
    order of insertion: a new entry goes last, an entry that exists has
    the parameters appended to its list. *)
Fixpoint add_params (model_params : list (ag_name * list pyvalue))
    (model_name_ag : ag_name) (params : pyvalue)
  : list (ag_name * list pyvalue) :=
  match model_params with
  | [] => [(model_name_ag, [params])]
  | (k, l) :: rest =>
      if bool_decide (k = model_name_ag)
      then (k, (l ++ [params])%list) :: rest
      else (k, l) :: add_params rest model_name_ag params
  end.

Fixpoint model_params_loop (hyperparameters_space : gmap string space)
    (items : list (string * pyvalue))
    (model_params : list (ag_name * list pyvalue))
  : exn + list (ag_name * list pyvalue) :=
  match items with
  | [] => inr model_params
  | (model_name, model_parameters) :: rest =>
      ebind (convert hyperparameters_space model_name model_parameters)
        (fun '(model_name_ag, params) =>
      model_params_loop hyperparameters_space rest
        (add_params model_params model_name_ag params))
  end.

(** [_hyperparameters_to_model_params]; [hyperparameters] is the list of
    the items of the dictionary. *)
Definition _hyperparameters_to_model_params
    (hyperparameters : list (string * pyvalue))
    (hyperparameters_space : gmap string space)
  : exn + list (ag_name * list pyvalue) :=
  model_params_loop hyperparameters_space hyperparameters [].

(** ** Vocabulary of the statements *)

(** The parameters converted for one AutoGluon name, in order. *)
Definition configurations (k : ag_name) (converted : list (ag_name * pyvalue))
  : list pyvalue :=
  map snd (List.filter (fun kv => bool_decide (fst kv = k)) converted).

(** [model_params.get(k)] on the dictionary [_hyperparameters_to_model_params]
    returns. *)
Definition dict_get (k : ag_name) (model_params : list (ag_name * list pyvalue))
  : option (list pyvalue) :=
  option_map snd (List.find (fun kv => bool_decide (fst kv = k)) model_params).

(** One set of arguments enables at least what another enables. *)
Definition at_least (b b' : bool) : Prop := b = true -> b' = true.

End Task.

End Autogluon.

(* ================================================================== *)
(** * Sample data *)

Module Samples.

Import Intervention.

(** A classifier with the range of section 4.1: a numeric column whose
    values are all whole is integer, another numeric column is numeric,
    and every other column is category. *)
Definition classify (c : column) : type_special :=
  match col_dtype c with
  | number =>
      if forallb (fun v => match v with
                           | Num q => Pos.eqb (Qden (Qred q)) 1
                           | _ => false
                           end) (col_values c)
      then integer else numeric
  | object => category
  end.

(** A predictor with no confounders and no confidence level. *)
Definition plain : predictor :=
  __init__ "y" "t" "t_new" None None None None None None 0 true true true None.

Definition fresh : world := mkWorld plain [].

(** A treatment with three categorical levels, and a numeric outcome. *)
Definition three_levels : frame :=
  [ mkColumn (Name "t") object [Str "a"; Str "b"; Str "c"];
    mkColumn (Name "t_new") object [Str "b"; Str "c"; Str "a"];
    mkColumn (Name "y") number [Num (1 # 2); Num (3 # 2); Num (5 # 2)] ].

Definition treatment_of (df : frame) : frame :=
  List.filter (fun c => label_eqb (col_name c) (Name "t")) df.

Definition outcome_of (df : frame) : frame :=
  List.filter (fun c => label_eqb (col_name c) (Name "y")) df.

(** The world a fit on [three_levels] leaves behind. *)
Definition fitted (cls : column -> type_special) (logit : Q -> cell) : world :=
  snd (fit cls (-10) 10 logit None three_levels None fresh).

(** A numeric treatment and a target with two labels. *)
Definition two_labels : frame :=
  [ mkColumn (Name "t") number [Num 1; Num 2; Num 1];
    mkColumn (Name "t_new") number [Num 2; Num 2; Num 2];
    mkColumn (Name "y") object [Str "no"; Str "yes"; Str "no"] ].




(** A frame with one gap in a numeric and one in a categorical column. *)
Definition with_gaps : frame :=
  [ mkColumn (Name "a") number [Num 1; NaN; Num (7 # 2); Num 2];
    mkColumn (Name "c") object [Str "u"; NaN; Str "v"; Str "u"] ].

(** A column of rates. *)
Definition rates (l : list cell) : column := mkColumn (Name "rate") object l.

(** A prior on the level "red" of a categorical column, squared, and a
    failed critical check. *)
Definition squared_level : BayesianRegression.prior :=
  BayesianRegression.mkPrior "colour" (Some "red") 2 (1 # 2).

Definition linear_prior : BayesianRegression.prior :=
  BayesianRegression.mkPrior "size" None 1 (3 # 1).

Definition critical_check : BayesianRegression.CheckResult :=
  BayesianRegression.mkCheck "DoNotContainEmptyColumnsChecker"
    BayesianRegression.CRITICAL "empty column".

(** A stand-in for [scipy.special.logit] with its values at 0 and 1 and
    a finite value in between. *)
Definition logit_like (p : Q) : cell :=
  if Qeq_bool p 0 then NegInf
  else if Qeq_bool p 1 then PosInf
  else if Qle_bool 0 p && Qle_bool p 1 then Num ((2 * p - 1) / (p * (1 - p)))%Q
  else NaN.

(** A class-probability matrix for the three rows of [two_labels]. *)
Definition probabilities : frame :=
  [ mkColumn (Name "no") number [Num (3 # 4); Num (1 # 4); Num (1 # 2)];
    mkColumn (Name "yes") number [Num (1 # 4); Num (3 # 4); Num (1 # 2)] ].

(** The two treatment columns of [three_levels] without the target. *)
Definition without_target : frame :=
  [ mkColumn (Name "t") object [Str "a"; Str "b"; Str "c"];
    mkColumn (Name "t_new") object [Str "b"; Str "c"; Str "a"] ].

(** A second prior on the column of [linear_prior]. *)
Definition linear_prior_again : BayesianRegression.prior :=
  BayesianRegression.mkPrior "size" None 1 (5 # 1).

(** A prior on the square of a column that is not categorical. *)
Definition squared_level_free : BayesianRegression.prior :=
  BayesianRegression.mkPrior "colour" None 2 (1 # 3).

(** A frame of one column of rates, one of them not a percentage. *)
Definition some_rates : frame := [rates [Str "10%"; Str " 2.5 %"; Str "n/a"]].

(** Three models, the last two needing a GPU, with hyperparameters and
    spaces kept as strings. *)
Inductive sample_model := lgbm | automm | pfn.

#[global] Instance sample_model_eq_dec : EqDecision sample_model.
Proof. solve_decision. Defined.

Definition sample_value (m : sample_model) : string :=
  match m with
  | lgbm => "gbm"
  | automm => "ag_automm"
  | pfn => "tabpfn"
  end.

Definition sample_class (ag : string) (gpu : bool)
  : Autogluon.params_class string string :=
  Autogluon.mkParamsClass string string ["regression"; "binary"] true gpu
    (Autogluon.ag_str ag) (fun p s _ => inr (p +:+ s)).

Definition sample_dict : list (sample_model * Autogluon.params_class string string) :=
  [ (lgbm, sample_class "GBM" false);
    (automm, sample_class "AG_AUTOMM" true);
    (pfn, sample_class "TABPFN" true) ].

(** The hyperparameters of a known model, of a model that is not known,
    and of one given under the AutoGluon name of the first; and the
    space of the first. *)
Definition sample_hyperparameters : list (string * string) :=
  [ ("gbm", "a"); ("custom", "b"); ("GBM", "c") ].

Definition sample_space : gmap string string := {[ "gbm" := "/s" ]}.

End Samples.

(* ================================================================== *)
(** * Properties of frames *)

Module FrameFacts.

Lemma emapM_inr {A B : Type} (f : A -> exn + B) (l : list A) (l' : list B) :
  emapM f l = inr l' -> Forall2 (fun a b => f a = inr b) l l'.
Proof.
  revert l'. induction l as [|a l IH]; intros l' H; cbn in H.
  - inversion H. constructor.
  - destruct (f a) as [e|b] eqn:Hfa; [discriminate|]. cbn in H.
    destruct (emapM f l) as [e|bs]; [discriminate|]. cbn in H.
    inversion H; subst. constructor; [exact Hfa | apply IH; reflexivity].
Qed.

Lemma label_eqb_eq (a b : label) : label_eqb a b = true <-> a = b.
Proof.
  destruct a as [s|i], b as [t|j]; cbn; split; intros H;
    try discriminate; try (inversion H; subst).
  - apply String.eqb_eq in H. congruence.
  - apply String.eqb_refl.
  - apply Nat.eqb_eq in H. congruence.
  - apply Nat.eqb_refl.
Qed.

Lemma mem_In (n : label) (names : list label) :
  mem n names = true <-> In n names.
Proof.
  unfold mem. rewrite existsb_exists. split.
  - intros (x & Hx & E). apply label_eqb_eq in E. subst. exact Hx.
  - intros H. exists n. split; [exact H | apply label_eqb_eq; reflexivity].
Qed.

Lemma filter_none {A : Type} (f : A -> bool) (l : list A) :
  (forall x, In x l -> f x = false) -> List.filter f l = [].
Proof.
  induction l as [|a l IH]; intros H; [reflexivity|]. cbn.
  rewrite (H a (or_introl eq_refl)). apply IH. intros x Hx.
  apply H. right. exact Hx.
Qed.

(** In a frame whose labels are pairwise distinct, selecting by name
    gives the one column of that name. *)
Lemma filter_name_unique (df : frame) (c : column) :
  NoDup (columns df) -> In c df ->
  List.filter (fun c' => label_eqb (col_name c') (col_name c)) df = [c].
Proof.
  induction df as [|d df IH]; intros Hnd Hin; [contradiction|].
  cbn in Hnd. inversion Hnd as [|? ? Hnotin Hnd']; subst. cbn.
  assert (Hfresh : forall x, In x df -> col_name x <> col_name d).
  { intros x Hx E. apply Hnotin. rewrite <- E.
    apply list_elem_of_In, in_map. exact Hx. }
  destruct Hin as [->|Hin].
  - rewrite (proj2 (label_eqb_eq _ _) eq_refl). f_equal.
    apply filter_none. intros x Hx.
    destruct (label_eqb (col_name x) (col_name c)) eqn:E; [|reflexivity].
    apply label_eqb_eq in E. exfalso. exact (Hfresh x Hx E).
  - destruct (label_eqb (col_name d) (col_name c)) eqn:E.
    + apply label_eqb_eq in E. exfalso. apply (Hfresh c Hin). congruence.
    + apply IH; assumption.
Qed.

Lemma getitem_unique (df : frame) (c : column) (n : string) :
  NoDup (columns df) -> In c df -> col_name c = Name n ->
  getitem df n = inr [c].
Proof.
  intros Hnd Hin Hn. unfold getitem. rewrite <- Hn.
  rewrite (filter_name_unique df c Hnd Hin). reflexivity.
Qed.

Lemma unique_acc_length (seen l : list cell) :
  length (unique_acc seen l) <= length l.
Proof.
  revert seen. induction l as [|x l IH]; intros seen; cbn; [lia|].
  destruct (existsb (cell_eqb x) seen); cbn.
  - specialize (IH seen). lia.
  - specialize (IH (x :: seen)). lia.
Qed.

Lemma unique_length (l : list cell) :
  length (unique l) <= length l /\ (0 < length l -> 0 < length (unique l)).
Proof.
  split; [apply unique_acc_length|].
  destruct l as [|x l]; cbn; lia.
Qed.

Lemma emapM_all {A B : Type} (f : A -> exn + B) (g : A -> B) (l : list A) :
  (forall a, In a l -> f a = inr (g a)) -> emapM f l = inr (map g l).
Proof.
  induction l as [|a l IH]; intros H; [reflexivity|]. cbn.
  rewrite (H a (or_introl eq_refl)). cbn.
  rewrite IH by (intros x Hx; apply H; right; exact Hx). reflexivity.
Qed.

(** In a frame with pairwise distinct labels, a column is named in the
    labels of a selection exactly when it is selected. *)
Lemma mem_selected (sel : column -> bool) (df : frame) (c : column) :
  NoDup (columns df) -> In c df ->
  mem (col_name c) (columns (List.filter sel df)) = sel c.
Proof.
  intros Hnd Hin. destruct (sel c) eqn:Hsel.
  - apply mem_In. unfold columns. apply in_map.
    apply filter_In. split; assumption.
  - destruct (mem _ _) eqn:Hm; [|reflexivity].
    apply mem_In in Hm. unfold columns in Hm.
    apply in_map_iff in Hm. destruct Hm as (d & Hn & Hd).
    apply filter_In in Hd. destruct Hd as [Hd Hseld].
    assert (d = c); [|congruence].
    clear Hsel Hseld. induction df as [|x df IH]; [contradiction|].
    cbn in Hnd. inversion Hnd as [|? ? Hnotin Hnd']; subst.
    assert (Hfresh : forall y, In y df -> col_name y <> col_name x).
    { intros y Hy E. apply Hnotin. rewrite <- E.
      apply list_elem_of_In, in_map. exact Hy. }
    destruct Hd as [->|Hd], Hin as [->|Hin]; try reflexivity.
    + exfalso. apply (Hfresh c Hin). congruence.
    + exfalso. apply (Hfresh d Hd). congruence.
    + apply IH; assumption.
Qed.

Lemma unique_acc_In (seen l : list cell) (v : cell) :
  In v (unique_acc seen l) -> In v l.
Proof.
  revert seen. induction l as [|x l IH]; intros seen H; [contradiction|].
  cbn in H. destruct (existsb (cell_eqb x) seen).
  - right. exact (IH _ H).
  - destruct H as [->|H]; [left; reflexivity | right; exact (IH _ H)].
Qed.


Lemma existsb_none {A : Type} (f : A -> bool) (l : list A) :
  (forall x, In x l -> f x = false) -> existsb f l = false.
Proof.
  intros H. destruct (existsb f l) eqn:E; [|reflexivity].
  apply existsb_exists in E. destruct E as (x & Hx & Hfx).
  rewrite (H x Hx) in Hfx. discriminate.
Qed.

End FrameFacts.

(* ================================================================== *)
(** * Properties of the intervention-effect predictor *)

Module InterventionFacts.

Import Intervention FrameFacts.
Local Open Scope py_scope.

(** ** Which library calls a method can record *)

Lemma records_ret {A : Type} (allowed : list call) (a : A) :
  records allowed (ret a).
Proof.
  intros w r w' H. inversion H; subst. exists []. rewrite app_nil_r.
  split; [reflexivity|]. intros c [].
Qed.

Lemma records_raise {A : Type} (allowed : list call) (e : exn) :
  records allowed (@raise A e).
Proof.
  intros w r w' H. inversion H; subst. exists []. rewrite app_nil_r.
  split; [reflexivity|]. intros c [].
Qed.

Lemma records_lift {A : Type} (allowed : list call) (x : exn + A) :
  records allowed (lift x).
Proof.
  intros w r w' H. inversion H; subst. exists []. rewrite app_nil_r.
  split; [reflexivity|]. intros c [].
Qed.

Lemma records_get_self (allowed : list call) : records allowed get_self.
Proof.
  intros w r w' H. inversion H; subst. exists []. rewrite app_nil_r.
  split; [reflexivity|]. intros c [].
Qed.

Lemma records_modify_self (allowed : list call) (f : predictor -> predictor) :
  records allowed (modify_self f).
Proof.
  intros w r w' H. inversion H; subst. exists []. cbn. rewrite app_nil_r.
  split; [reflexivity|]. intros c [].
Qed.

Lemma records_log (allowed : list call) (c : call) :
  In c allowed -> records allowed (log c).
Proof.
  intros Hc w r w' H. inversion H; subst. exists [c]. cbn.
  split; [reflexivity|]. intros c' [<-|[]]. exact Hc.
Qed.

Lemma records_bind {A B : Type} (allowed : list call) (m : M A) (k : A -> M B) :
  records allowed m -> (forall a, records allowed (k a)) ->
  records allowed (bind m k).
Proof.
  intros Hm Hk w r w' H. unfold bind in H.
  destruct (m w) as [[e|a] w1] eqn:Hmw.
  - inversion H; subst. exact (Hm _ _ _ Hmw).
  - destruct (Hm _ _ _ Hmw) as (l1 & E1 & I1).
    destruct (Hk a _ _ _ H) as (l2 & E2 & I2).
    exists (l1 ++ l2)%list. rewrite E2, E1, app_assoc.
    split; [reflexivity|]. apply incl_app; assumption.
Qed.

Lemma records_load_global (allowed : list call) (n : string) :
  records allowed (load_global n).
Proof.
  unfold load_global. destruct (bool_decide _);
    [apply records_ret | apply records_raise].
Qed.

Create HintDb records.

#[local] Hint Resolve records_ret records_raise records_lift records_get_self
  records_modify_self records_load_global : records.

Ltac records_step :=
  first
    [ apply records_bind; [|intros ?]
    | apply records_log; cbn; tauto
    | solve [auto with records]
    | match goal with
      | |- records _ (match ?x with _ => _ end) => destruct x
      | |- records _ (if ?x then _ else _) => destruct x
      | |- records _ (let '(_, _) := ?x in _) => destruct x
      end ].

Section Facts.

Variable get_type_special_no_ag : column -> type_special.
Variable LOGIT_MIN_VALUE LOGIT_MAX_VALUE : Q.
Variable logit : Q -> cell.

#[local] Abbreviation generate_TYX :=
  (_generate_TYX get_type_special_no_ag LOGIT_MIN_VALUE LOGIT_MAX_VALUE logit).
#[local] Abbreviation predict :=
  (predict_effect get_type_special_no_ag LOGIT_MIN_VALUE LOGIT_MAX_VALUE logit).

(** ** The literal the estimator builder compares with *)

Lemma type_special_never_categorical (t : type_special) :
  String.eqb (type_special_str t) "categorical" = false.
Proof. destruct t; reflexivity. Qed.

(** The estimator builder, once the current-intervention column is
    found: the third disjunct of its test never holds. *)
Lemma dml_model_found (self : predictor) (mt my mf : wrapper)
    (X : option frame) (T : frame) (t : column) :
  getseries T (current_intervention_column self) = inr t ->
  _generate_dml_model get_type_special_no_ag self mt my mf X T =
    if has_common_causes self || bool_decide (is_Some (cate_alpha self))
    then inr (LinearDML mt my
                (if has_common_causes self then Some mkDMLFeaturizer else None)
                (causal_cv self) false false)
    else inr (NonParamDML mt my mf
                (match X with None => None | Some _ => Some mkDMLFeaturizer end)
                (causal_cv self) false).
Proof.
  intros Ht. unfold _generate_dml_model. rewrite Ht. cbn [ebind].
  rewrite type_special_never_categorical, andb_false_l, orb_false_r.
  destruct (has_common_causes self) eqn:Hcc; cbn [orb].
  - unfold has_common_causes in Hcc.
    destruct (common_causes self) as [cc|]; [|discriminate].
    destruct (Nat.eqb (length cc) 0); [discriminate|reflexivity].
  - destruct (bool_decide (is_Some (cate_alpha self))); [|reflexivity].
    unfold has_common_causes in Hcc.
    destruct (common_causes self) as [cc|]; [|reflexivity].
    destruct (Nat.eqb (length cc) 0); [reflexivity|discriminate].
Qed.

(** The linear estimator is selected exactly when there are common
    causes or a significance level. *)
Lemma dml_model_linear_iff (self : predictor) (mt my mf : wrapper)
    (X : option frame) (T : frame) (t : column) :
  getseries T (current_intervention_column self) = inr t ->
  exists m,
    _generate_dml_model get_type_special_no_ag self mt my mf X T = inr m /\
    (is_linear m = true <->
     has_common_causes self = true \/ is_Some (cate_alpha self)).
Proof.
  intros Ht. rewrite (dml_model_found _ _ _ _ _ _ _ Ht).
  destruct (has_common_causes self); cbn [orb].
  - eexists; split; [reflexivity|]. cbn. intuition.
  - destruct (cate_alpha self) as [a|]; cbn.
    + eexists; split; [reflexivity|]. cbn. split; [eauto|reflexivity].
    + eexists; split; [reflexivity|]. cbn.
      split; [discriminate|]. intros [H|[a H]]; discriminate.
Qed.

(** C1.  With no common causes and no significance level, the estimator
    builder returns the non-parametric estimator for every treatment
    column, whatever its classification and however many distinct values
    it has: a categorical treatment with more than two levels does not
    select the linear estimator. *)
Theorem dml_model_ignores_treatment_levels (self : predictor)
    (mt my mf : wrapper) (X : option frame) (T : frame) (t : column) :
  getseries T (current_intervention_column self) = inr t ->
  has_common_causes self = false ->
  cate_alpha self = None ->
  _generate_dml_model get_type_special_no_ag self mt my mf X T =
    inr (NonParamDML mt my mf
           (match X with None => None | Some _ => Some mkDMLFeaturizer end)
           (causal_cv self) false).
Proof.
  intros Ht Hcc Ha. rewrite (dml_model_found _ _ _ _ _ _ _ Ht), Hcc, Ha.
  reflexivity.
Qed.

(** ** Wrapper selection *)

(** C10.  For an encoded outcome with at least one column, the final
    model is the multilabel wrapper exactly when the outcome has one
    column and the single-output wrapper exactly when it has more, while
    the outcome model is the single-output wrapper exactly when the
    outcome has one column and the multilabel wrapper exactly when it
    has more. *)
Theorem model_final_opposite_of_model_y (self : predictor) (X : option frame)
    (T Y : frame) :
  0 < length (columns Y) ->
  (is_multilabel (_generate_model_final self T Y) = true <->
     length (columns Y) = 1) /\
  (is_tabular (_generate_model_final self T Y) = true <->
     1 < length (columns Y)) /\
  (is_tabular (_generate_model_y self X Y) = true <->
     length (columns Y) = 1) /\
  (is_multilabel (_generate_model_y self X Y) = true <->
     1 < length (columns Y)).
Proof.
  intros Hpos. unfold _generate_model_final, _generate_model_y.
  destruct (Nat.eqb_spec (length (columns Y)) 1) as [He|Hne]; cbn.
  - rewrite He. repeat split; intros; try reflexivity; try lia; discriminate.
  - repeat split; intros; try reflexivity; try lia; try discriminate.
Qed.

(** ** [_generate_TYX] *)

(** Encoding the outcome records the fit of the encoder and the logit
    transform, and nothing else. *)
Lemma generate_TYX_records (df : frame) (target_proba : option frame) :
  records [call_onehot_fit_transform; call_logit]
    (generate_TYX df target_proba).
Proof.
  unfold _generate_TYX, outcome_featurizer_fit_transform.
  repeat records_step.
Qed.

(** ** Cells of a frame *)

(** A cell-wise map carries a property of the cells across. *)
Lemma map_frame_cells (P R : cell -> Prop) (f : cell -> exn + cell)
    (df df' : frame) :
  (forall v v', P v -> f v = inr v' -> R v') ->
  cells P df -> map_frame f df = inr df' -> cells R df'.
Proof.
  intros Hf Hdf Hmap. apply emapM_inr in Hmap. unfold cells in *.
  induction Hmap as [|c c' df df' Hc _ IH]; [constructor|].
  inversion Hdf as [|? ? Pc Pdf]; subst.
  constructor; [|exact (IH Pdf)].
  destruct (emapM f (col_values c)) as [e|v] eqn:Hv; [discriminate|].
  cbn in Hc. inversion Hc; subst. cbn.
  apply emapM_inr in Hv. clear Hc.
  induction Hv as [|x y xs ys Hxy _ IHv]; [constructor|].
  inversion Pc; subst. constructor; eauto.
Qed.

Lemma imap_cells (P : cell -> Prop) (f : nat -> list cell -> column)
    (cols : list (list cell)) :
  (forall i v, col_values (f i v) = v) ->
  Forall (Forall P) cols ->
  Forall (fun c => Forall P (col_values c)) (imap f cols).
Proof.
  revert f. induction cols as [|v cols IH]; intros f Hf Hall; cbn.
  - constructor.
  - inversion Hall; subst. constructor.
    + rewrite Hf. assumption.
    + apply IH; [intros i v'; apply Hf | assumption].
Qed.

Lemma of_ndarray_cells (P : cell -> Prop) (cols : list (list cell)) :
  Forall (Forall P) cols -> cells P (of_ndarray cols).
Proof. intros H. apply imap_cells; [reflexivity | exact H]. Qed.

(** The indicator columns of the encoder hold zeros and ones. *)
Lemma onehot_transform_probability (cats : list (list cell)) (X : frame) :
  cells probability (onehot_transform cats X).
Proof.
  unfold onehot_transform. apply of_ndarray_cells.
  apply List.Forall_forall. intros col Hcol.
  apply in_flat_map in Hcol. destruct Hcol as ([c cs] & _ & Hcol).
  apply in_map_iff in Hcol. destruct Hcol as (cat & <- & _).
  apply List.Forall_forall. intros v Hv.
  apply in_map_iff in Hv. destruct Hv as (x & <- & _).
  destruct (cell_eqb x cat); eexists; (split; [reflexivity|]);
    split; discriminate.
Qed.

(** ** Clipping *)

Lemma clip_cell_within (lo hi : Q) (v v' : cell) :
  (lo <= hi)%Q -> v <> NaN -> clip_cell lo hi v = inr v' -> within lo hi v'.
Proof.
  intros Hle Hnan H. unfold clip_cell in H.
  pose proof (Q.min_l lo hi Hle) as Hmin.
  pose proof (Q.max_r lo hi Hle) as Hmax.
  set (a := Qmin lo hi) in *. set (b := Qmax lo hi) in *.
  assert (Hab : (a <= b)%Q) by (rewrite Hmin, Hmax; exact Hle).
  destruct v as [| | |q|s]; try discriminate; try contradiction;
    inversion H; subst; clear H.
  - exists a. split; [reflexivity|]. rewrite Hmin.
    split; [apply Qle_refl | exact Hle].
  - exists b. split; [reflexivity|]. rewrite Hmax.
    split; [exact Hle | apply Qle_refl].
  - assert (Hlo : (lo <= a)%Q) by (rewrite Hmin; apply Qle_refl).
    assert (Hhi : (b <= hi)%Q) by (rewrite Hmax; apply Qle_refl).
    eexists. split; [reflexivity|].
    destruct (Qle_bool q b) eqn:Hqh.
    + apply Qle_bool_iff in Hqh.
      destruct (Qle_bool a q) eqn:Hlq.
      * apply Qle_bool_iff in Hlq.
        split; [exact (Qle_trans _ _ _ Hlo Hlq) | exact (Qle_trans _ _ _ Hqh Hhi)].
      * split; [exact Hlo | exact (Qle_trans _ _ _ Hab Hhi)].
    + split; [exact (Qle_trans _ _ _ Hlo Hab) | exact Hhi].
Qed.

Lemma logit_cell_not_nan (v v' : cell) :
  logit_spec logit -> probability v -> logit_cell logit v = inr v' -> v' <> NaN.
Proof.
  intros (H0 & H1 & Hmid) (p & -> & Hp0 & Hp1) H. cbn in H.
  inversion H; subst; clear H.
  destruct (Qeq_dec p 0) as [E0|N0]; [rewrite (H0 _ E0); discriminate|].
  destruct (Qeq_dec p 1) as [E1|N1]; [rewrite (H1 _ E1); discriminate|].
  destruct (Hmid p) as (q & ->); [|discriminate].
  split.
  - apply Qle_lteq in Hp0. destruct Hp0 as [Hlt|Heq]; [exact Hlt|].
    exfalso. apply N0. symmetry. exact Heq.
  - apply Qle_lteq in Hp1. destruct Hp1 as [Hlt|Heq]; [exact Hlt|].
    exfalso. apply N1. exact Heq.
Qed.

(** At the two ends of the unit interval the encoded value is the bound
    itself. *)
Lemma clip_logit_at_ends :
  logit_spec logit -> (LOGIT_MIN_VALUE <= LOGIT_MAX_VALUE)%Q ->
  (exists q : Q,
     ebind (logit_cell logit (Num 0%Q)) (clip_cell LOGIT_MIN_VALUE LOGIT_MAX_VALUE)
       = inr (Num q) /\ (q == LOGIT_MIN_VALUE)%Q) /\
  (exists q : Q,
     ebind (logit_cell logit (Num 1%Q)) (clip_cell LOGIT_MIN_VALUE LOGIT_MAX_VALUE)
       = inr (Num q) /\ (q == LOGIT_MAX_VALUE)%Q).
Proof.
  intros (H0 & H1 & _) Hle. cbn.
  rewrite (H0 0%Q (Qeq_refl 0)), (H1 1%Q (Qeq_refl 1)). cbn.
  split; eexists; (split; [reflexivity|]);
    [apply Q.min_l | apply Q.max_r]; exact Hle.
Qed.

(** ** The encoded outcome *)

Lemma bind_inr {A B : Type} (m : M A) (k : A -> M B) (w w' : world) (b : B) :
  bind m k w = (inr b, w') ->
  exists a w1, m w = (inr a, w1) /\ k a w1 = (inr b, w').
Proof.
  unfold bind. destruct (m w) as [[e|a] w1]; [discriminate|]. eauto.
Qed.

Lemma lift_inr {A : Type} (x : exn + A) (w w' : world) (a : A) :
  lift x w = (inr a, w') -> x = inr a /\ w' = w.
Proof. unfold lift. intros H. inversion H. auto. Qed.

Tactic Notation "bind_inv" hyp(H) "as" ident(a) ident(Ha) :=
  let w1 := fresh "w" in
  apply bind_inr in H; destruct H as (a & w1 & Ha & H).

(** The outcome of a categorical target: the clipped logit of the
    supplied matrix or of the indicator columns. *)
Lemma generate_TYX_categorical (df : frame) (target_proba : option frame)
    (w w' : world) (T0 T1 Y : frame) (X : option frame) :
  numeric_target get_type_special_no_ag (self w) df = false ->
  generate_TYX df target_proba w = (inr (T0, T1, Y, X), w') ->
  exists Y0 L,
    (target_proba = Some Y0 \/
     exists cats t, Y0 = onehot_transform cats t) /\
    logit_frame logit Y0 = inr L /\
    clip LOGIT_MIN_VALUE LOGIT_MAX_VALUE L = inr Y.
Proof.
  intros Hcat H. unfold numeric_target in Hcat.
  unfold _generate_TYX in H. unfold bind at 1, get_self at 1 in H.
  cbn [self] in H. unfold bind at 1, lift at 1 in H.
  destruct (select_common_causes (self w) df) as [e|X0]; [discriminate|].
  rewrite Hcat in H.
  bind_inv H as Y' HY. bind_inv H as t0 Ht0. bind_inv H as t1 Ht1.
  inversion H; subst; clear H Ht0 Ht1.
  bind_inv HY as u Hu. bind_inv HY as Y0 HY0. bind_inv HY as u' Hu'.
  bind_inv HY as L HL.
  apply lift_inr in HY. destruct HY as [Hclip _].
  apply lift_inr in HL. destruct HL as [Hlogit _].
  exists Y0, L. split; [|split; assumption].
  destruct target_proba as [proba|].
  - inversion HY0; subst. left. reflexivity.
  - right. bind_inv HY0 as t Ht. unfold outcome_featurizer_fit_transform in HY0.
    bind_inv HY0 as u1 Hu1. bind_inv HY0 as cats Hcats.
    bind_inv HY0 as u2 Hu2. inversion HY0; subst. eauto.
Qed.

(** A cell-wise map that succeeds on every cell succeeds on the frame. *)
Lemma map_frame_returns (P : cell -> Prop) (f : cell -> exn + cell) (df : frame) :
  (forall v, P v -> exists v', f v = inr v') ->
  cells P df -> exists df', map_frame f df = inr df'.
Proof.
  intros Hf Hdf. unfold map_frame, cells in *.
  induction Hdf as [|c df Hc _ (df' & IH)]; [exists []; reflexivity|].
  assert (Hcol : exists v, emapM f (col_values c) = inr v).
  { induction Hc as [|x l Hx _ (v & IHl)]; [exists []; reflexivity|].
    destruct (Hf x Hx) as (x' & Hx'). cbn. rewrite Hx', IHl. cbn. eauto. }
  destruct Hcol as (v & Hv). cbn. rewrite Hv. cbn. rewrite IH. cbn. eauto.
Qed.

(** The logit of a matrix of probabilities can be taken and clipped. *)
Lemma encode_returns (Y0 : frame) :
  logit_spec logit -> cells probability Y0 ->
  exists L Y, logit_frame logit Y0 = inr L /\
              clip LOGIT_MIN_VALUE LOGIT_MAX_VALUE L = inr Y.
Proof.
  intros Hlogit HY0.
  destruct (map_frame_returns probability (logit_cell logit) Y0) as (L & HL);
    [|exact HY0|].
  { intros v (p & -> & _). cbn. eauto. }
  assert (HLc : cells (fun v => exists p, probability (Num p) /\ v = logit p) L).
  { refine (map_frame_cells _ _ _ _ _ _ HY0 HL).
    intros v v' (p & -> & Hp) Hv. cbn in Hv. inversion Hv; subst.
    exists p. split; [exists p; auto | reflexivity]. }
  destruct (map_frame_returns
              (fun v => exists p, probability (Num p) /\ v = logit p)
              (clip_cell LOGIT_MIN_VALUE LOGIT_MAX_VALUE) L) as (Y & HY);
    [|exact HLc|eauto]. intros v (p & Hp & ->).
    pose proof (logit_cell_not_nan (Num p) (logit p) Hlogit Hp eq_refl) as Hn.
    destruct Hlogit as (H0 & H1 & Hmid). destruct Hp as (p' & E & Hp0 & Hp1).
    inversion E; subst p'.
    destruct (Qeq_dec p 0) as [E0|N0]; [rewrite (H0 _ E0); cbn; eauto|].
    destruct (Qeq_dec p 1) as [E1|N1]; [rewrite (H1 _ E1); cbn; eauto|].
    destruct (Hmid p) as (q & ->); [|cbn; eauto].
    split.
    - apply Qle_lteq in Hp0. destruct Hp0 as [Hlt|Heq]; [exact Hlt|].
      exfalso. apply N0. symmetry. exact Heq.
    - apply Qle_lteq in Hp1. destruct Hp1 as [Hlt|Heq]; [exact Hlt|].
      exfalso. apply N1. exact Heq.
Qed.

(** For a target that is not numeric, the encoded outcome is produced
    whenever the columns asked for exist and, without a supplied matrix,
    the labels of the target can be sorted. *)
Lemma generate_TYX_categorical_returns (df : frame) (target_proba : option frame)
    (w : world) (T0 T1 : frame) (X : option frame) :
  logit_spec logit ->
  numeric_target get_type_special_no_ag (self w) df = false ->
  select_common_causes (self w) df = inr X ->
  match target_proba with
  | Some proba => cells probability proba
  | None => exists t cats, getitem df (target (self w)) = inr t /\
                           onehot_categories t = inr cats
  end ->
  getitem df (current_intervention_column (self w)) = inr T0 ->
  getitem df (new_intervention_column (self w)) = inr T1 ->
  exists Y w',
    generate_TYX df target_proba w = (inr (T0, T1, Y, X), w') /\
    causal_model (self w') = causal_model (self w).
Proof.
  intros Hlogit Hcat HX Hproba HT0 HT1. unfold numeric_target in Hcat.
  unfold _generate_TYX, bind, get_self, lift. cbn [self].
  rewrite HX, Hcat. unfold modify_self. cbn [self calls].
  destruct target_proba as [proba|].
  - destruct (encode_returns proba Hlogit Hproba) as (L & Y & HL & HY).
    unfold ret, log. cbn [self calls]. rewrite HL, HY. cbn. rewrite HT0, HT1.
    eauto.
  - destruct Hproba as (t & cats & Ht & Hcats). cbn. rewrite Ht.
    unfold outcome_featurizer_fit_transform, bind, log, lift, modify_self, ret.
    cbn [self calls]. rewrite Hcats.
    destruct (encode_returns (onehot_transform cats t) Hlogit
                (onehot_transform_probability cats t)) as (L & Y & HL & HY).
    rewrite HL, HY. cbn. rewrite HT0, HT1. eauto.
Qed.

(** C6.  For a target that is not classified numeric or integer, every
    entry of the encoded outcome is a finite number between
    [LOGIT_MIN_VALUE] and [LOGIT_MAX_VALUE], for the indicator columns of
    the labels and for every supplied matrix of probabilities, the
    probabilities 0 and 1 included. *)
Theorem encoded_outcome_within_clip_range (df : frame)
    (target_proba : option frame) (w w' : world) (T0 T1 Y : frame)
    (X : option frame) :
  logit_spec logit ->
  (LOGIT_MIN_VALUE <= LOGIT_MAX_VALUE)%Q ->
  numeric_target get_type_special_no_ag (self w) df = false ->
  (forall proba, target_proba = Some proba -> cells probability proba) ->
  generate_TYX df target_proba w = (inr (T0, T1, Y, X), w') ->
  cells (within LOGIT_MIN_VALUE LOGIT_MAX_VALUE) Y.
Proof.
  intros Hlogit Hle Hcat Hproba H.
  destruct (generate_TYX_categorical _ _ _ _ _ _ _ _ Hcat H)
    as (Y0 & L & HY0 & HL & HY).
  assert (HP : cells probability Y0).
  { destruct HY0 as [E|(cats & t & ->)];
      [exact (Hproba _ E) | apply onehot_transform_probability]. }
  assert (HN : cells (fun v => v <> NaN) L).
  { refine (map_frame_cells _ _ _ _ _ _ HP HL).
    intros v v' Hv Hvv'. exact (logit_cell_not_nan _ _ Hlogit Hv Hvv'). }
  refine (map_frame_cells _ _ _ _ _ _ HN HY).
  intros v v' Hv Hvv'. exact (clip_cell_within _ _ _ _ Hle Hv Hvv').
Qed.

(** ** A numeric target *)

(** A name among [num_cols] is the label of a column classified numeric
    or integer. *)
Lemma num_cols_In (df : frame) (n : label) :
  mem n (num_cols get_type_special_no_ag df) = true ->
  exists c, In c df /\ col_name c = n /\
    (get_type_special_no_ag c = numeric \/ get_type_special_no_ag c = integer).
Proof.
  intros H. apply mem_In in H. unfold num_cols, columns in H.
  apply in_map_iff in H. destruct H as (c & Hn & Hc).
  apply filter_In in Hc. destruct Hc as [Hin Hcls].
  exists c. split; [exact Hin|]. split; [exact Hn|].
  destruct (get_type_special_no_ag c); cbn in Hcls;
    [left | right | discriminate]; reflexivity.
Qed.

(** For a target classified numeric or integer, on a predictor that
    has encoded no categorical target, [_generate_TYX] returns the target
    column itself as the one column of the outcome, changes no attribute
    and records neither an encoder fit nor a logit; the decode step then
    adds the squeezed effects to that column and applies no inverse
    logit. *)
Theorem numeric_target_encode_decode (df : frame) (target_proba : option frame)
    (w : world) (T0 T1 : frame) (X : option frame) :
  numeric_target get_type_special_no_ag (self w) df = true ->
  outcome_featurizer (self w) = None ->
  NoDup (columns df) ->
  select_common_causes (self w) df = inr X ->
  getitem df (current_intervention_column (self w)) = inr T0 ->
  getitem df (new_intervention_column (self w)) = inr T1 ->
  exists c,
    In c df /\ col_name c = Name (target (self w)) /\
    (get_type_special_no_ag c = numeric \/ get_type_special_no_ag c = integer) /\
    generate_TYX df target_proba w = (inr (T0, T1, [c], X), w) /\
    forall effects,
      decode (outcome_featurizer (self w)) [c] effects
        = VAdd (VFrame [c]) (VSqueeze effects) /\
      applies_expit (decode (outcome_featurizer (self w)) [c] effects)
        = applies_expit effects.
Proof.
  intros Hnum Hf Hnd HX HT0 HT1. unfold numeric_target in Hnum.
  destruct (num_cols_In _ _ Hnum) as (c & Hin & Hn & Hcls).
  exists c. repeat (split; [assumption|]). split.
  - unfold _generate_TYX, bind, get_self, lift. cbn [self].
    rewrite HX, Hnum, (getitem_unique df c _ Hnd Hin Hn), HT0, HT1.
    reflexivity.
  - intros effects. rewrite Hf. split; reflexivity.
Qed.


(** ** The treatment model *)

Lemma true_div_pos (n m : nat) :
  0 < m ->
  exists q, true_div n m = inr q /\ (q == Z.of_nat n # Pos.of_nat m)%Q.
Proof.
  intros Hm. destruct m as [|m]; [lia|]. cbn [true_div].
  eexists. split; [reflexivity | apply Qred_correct].
Qed.

Lemma ratio_le (n n' m : nat) :
  n <= n' -> (Z.of_nat n # Pos.of_nat m <= Z.of_nat n' # Pos.of_nat m)%Q.
Proof.
  intros H. unfold Qle. cbn.
  apply Z.mul_le_mono_nonneg_r; lia.
Qed.

Lemma ratio_unit (n m : nat) :
  0 < n -> n <= m ->
  (0 < Z.of_nat n # Pos.of_nat m)%Q /\ (Z.of_nat n # Pos.of_nat m <= 1)%Q.
Proof.
  intros Hn Hm. unfold Qlt, Qle. cbn.
  rewrite Z.mul_1_r. assert (Z.pos (Pos.of_nat m) = Z.of_nat m) as ->.
  { destruct m as [|m]; [lia|]. rewrite <- (Nat2Pos.id (S m)) at 2 by lia.
    symmetry. apply positive_nat_Z. }
  lia.
Qed.

(** The treatment model of a column that is not among the numeric ones:
    a multiclass predictor whose holdout fraction is the number of
    distinct treatment values over the number of rows. *)
Lemma model_t_multiclass (self : predictor) (X : option frame) (T : frame)
    (t : column) :
  getseries T (current_intervention_column self) = inr t ->
  0 < nrows T ->
  numeric_treatment get_type_special_no_ag self T = false ->
  exists h,
    _generate_model_t get_type_special_no_ag self X T =
      inr (SKLearnTabularWrapper (mkTabularPredictor "t" multiclass)
             (xw_col X) (args_of self) (Some h)) /\
    (h == Z.of_nat (length (unique (col_values t))) # Pos.of_nat (nrows T))%Q.
Proof.
  intros Ht Hrows Hcat. unfold numeric_treatment in Hcat.
  unfold _generate_model_t. rewrite Hcat, Ht. cbn [ebind].
  destruct (true_div_pos (length (unique (col_values t))) (nrows T) Hrows)
    as (q & -> & Hq).
  exists q. split; [reflexivity | exact Hq].
Qed.

(** C5.  For a treatment frame with at least one row whose
    current-intervention column is not classified numeric or integer,
    the treatment model is multiclass and its holdout fraction is the
    number of distinct treatment values over the number of rows; the
    fraction lies above 0 and is at most 1, and for two such frames with
    the same number of rows it is no smaller for the frame with no fewer
    distinct values.  For a column classified numeric or integer the
    treatment model is a regression with no holdout fraction. *)
Theorem treatment_holdout_fraction (self : predictor) (X : option frame)
    (T : frame) (t : column) :
  getseries T (current_intervention_column self) = inr t ->
  0 < nrows T ->
  length (col_values t) = nrows T ->
  (numeric_treatment get_type_special_no_ag self T = false ->
   exists h,
     _generate_model_t get_type_special_no_ag self X T =
       inr (SKLearnTabularWrapper (mkTabularPredictor "t" multiclass)
              (xw_col X) (args_of self) (Some h)) /\
     (h == Z.of_nat (length (unique (col_values t))) # Pos.of_nat (nrows T))%Q /\
     (0 < h <= 1)%Q /\
     forall (X' : option frame) (T' : frame) (t' : column),
       getseries T' (current_intervention_column self) = inr t' ->
       nrows T' = nrows T ->
       numeric_treatment get_type_special_no_ag self T' = false ->
       length (unique (col_values t)) <= length (unique (col_values t')) ->
       exists h',
         _generate_model_t get_type_special_no_ag self X' T' =
           inr (SKLearnTabularWrapper (mkTabularPredictor "t" multiclass)
                  (xw_col X') (args_of self) (Some h')) /\
         (h <= h')%Q) /\
  (numeric_treatment get_type_special_no_ag self T = true ->
   _generate_model_t get_type_special_no_ag self X T =
     inr (SKLearnTabularWrapper (mkTabularPredictor "t" regression)
            (xw_col X) (args_of self) None)).
Proof.
  intros Ht Hrows Hlen. split.
  - intros Hcat.
    destruct (model_t_multiclass self X T t Ht Hrows Hcat) as (h & Hgen & Hh).
    exists h. split; [exact Hgen|]. split; [exact Hh|]. split.
    + rewrite Hh. destruct (unique_length (col_values t)) as [Hle Hpos].
      apply ratio_unit; lia.
    + intros X' T' t' Ht' Hrows' Hcat' Hmore.
      assert (Hpos' : 0 < nrows T') by lia.
      destruct (model_t_multiclass self X' T' t' Ht' Hpos' Hcat')
        as (h' & Hgen' & Hh').
      exists h'. split; [exact Hgen'|].
      rewrite Hh, Hh', Hrows'. apply ratio_le. exact Hmore.
  - intros Hnum. unfold numeric_treatment in Hnum.
    unfold _generate_model_t. rewrite Hnum. reflexivity.
Qed.


(** ** [predict_effect] *)

Lemma load_current_intervention_column (w : world) :
  load_global "current_intervention_column" w =
    (inl (NameError "current_intervention_column"), w).
Proof. vm_compute. reflexivity. Qed.

(** On a predictor whose causal model is absent, [predict_effect]
    raises [NotFittedError] for every dataset and every class-probability
    matrix; the attributes are untouched and no call to the estimation
    libraries has been recorded. *)
Theorem predict_effect_unfitted (df : frame) (target_proba : option frame)
    (w : world) :
  causal_model (self w) = None ->
  predict df target_proba w = (inl NotFittedError, w).
Proof.
  intros Hnone. unfold predict_effect, bind, get_self. rewrite Hnone.
  reflexivity.
Qed.

(** Once the causal model is present, [predict_effect] gets as far as
    the first name that is missing its [self.] and stops there. *)
Lemma predict_effect_fitted (df : frame) (target_proba : option frame)
    (w : world) (m : dml) :
  causal_model (self w) = Some m ->
  predict df target_proba w =
    match generate_TYX df target_proba w with
    | (inl e, w') => (inl e, w')
    | (inr _, w') => (inl (NameError "current_intervention_column"), w')
    end.
Proof.
  intros Hm. unfold predict_effect, get_self.
  unfold bind at 1. rewrite Hm. unfold bind at 1.
  destruct (generate_TYX df target_proba w) as [[e|[[[T0 T1] Y] X]] w'];
    [reflexivity|].
  unfold bind at 1. rewrite load_current_intervention_column. reflexivity.
Qed.

(** A fit that returns has stored a causal model. *)
Lemma fit_stores_model (df : frame) (target_proba : option frame)
    (w w' : world) :
  fit get_type_special_no_ag LOGIT_MIN_VALUE LOGIT_MAX_VALUE logit None
      df target_proba w = (inr tt, w') ->
  exists m, causal_model (self w') = Some m.
Proof.
  unfold fit. intros H.
  bind_inv H as tyx Htyx. destruct tyx as [[[T0 T1] Y] X].
  bind_inv H as self1 Hself. bind_inv H as mt Hmt. bind_inv H as m Hm.
  bind_inv H as u Hu. bind_inv H as u' Hu'.
  inversion H; subst. inversion Hu'; subst. inversion Hu; subst.
  cbn. eauto.
Qed.

(** C2.  After a fit, [predict_effect] returns no result at all: for
    every dataset it ends with an exception, and no effect has been
    asked of the estimator by then. *)
Theorem predict_effect_fitted_raises (df : frame) (target_proba : option frame)
    (w : world) (m : dml) :
  causal_model (self w) = Some m ->
  exists e w',
    predict df target_proba w = (inl e, w') /\
    (~ In call_effect (calls w) -> ~ In call_effect (calls w')).
Proof.
  intros Hm. rewrite (predict_effect_fitted _ _ _ _ Hm).
  destruct (generate_TYX df target_proba w) as [r w'] eqn:Htyx.
  destruct (generate_TYX_records df target_proba _ _ _ Htyx) as (l & El & Il).
  assert (Hkeep : ~ In call_effect (calls w) -> ~ In call_effect (calls w')).
  { intros Hn. rewrite El, in_app_iff. intros [H|H]; [tauto|].
    apply Il in H. cbn in H. intuition discriminate. }
  destruct r as [e|tyx]; eauto.
Qed.

End Facts.

(** ** The statements on sample data *)

Import Samples.

Lemma logit_like_spec : logit_spec logit_like.
Proof.
  unfold logit_spec, logit_like. repeat split.
  - intros p Hp. apply Qeq_bool_iff in Hp. rewrite Hp. reflexivity.
  - intros p Hp.
    destruct (Qeq_bool p 0) eqn:E0.
    + apply Qeq_bool_iff in E0. rewrite E0 in Hp. discriminate Hp.
    + apply Qeq_bool_iff in Hp. rewrite Hp. reflexivity.
  - intros p [Hlo Hhi].
    destruct (Qeq_bool p 0) eqn:E0.
    { apply Qeq_bool_iff in E0. rewrite E0 in Hlo.
      exfalso. exact (Qlt_irrefl _ Hlo). }
    destruct (Qeq_bool p 1) eqn:E1.
    { apply Qeq_bool_iff in E1. rewrite E1 in Hhi.
      exfalso. exact (Qlt_irrefl _ Hhi). }
    apply Qlt_le_weak, Qle_bool_iff in Hlo.
    apply Qlt_le_weak, Qle_bool_iff in Hhi.
    rewrite Hlo, Hhi. cbn. eauto.
Qed.

(** The sample treatment is classified category and has three levels. *)
Lemma three_levels_is_categorical :
  map classify (treatment_of three_levels) = [category] /\
  map (fun c => length (unique (col_values c))) (treatment_of three_levels) = [3].
Proof. split; reflexivity. Qed.

Lemma dml_model_ignores_treatment_levels_witness :
  has_common_causes plain = false /\
  cate_alpha plain = None /\
  _generate_dml_model classify plain
    (SKLearnTabularWrapper (mkTabularPredictor "t" multiclass) []
       (args_of plain) (Some 1%Q))
    (_generate_model_y plain None (outcome_of three_levels))
    (_generate_model_final plain (treatment_of three_levels)
       (outcome_of three_levels))
    None (treatment_of three_levels)
  = inr (NonParamDML
           (SKLearnTabularWrapper (mkTabularPredictor "t" multiclass) []
              (args_of plain) (Some 1%Q))
           (_generate_model_y plain None (outcome_of three_levels))
           (_generate_model_final plain (treatment_of three_levels)
              (outcome_of three_levels))
           None 1 false).
Proof.
  split; [reflexivity|]. split; [reflexivity|].
  eapply (dml_model_ignores_treatment_levels classify plain _ _ _ None);
    reflexivity.
Defined.

Lemma model_final_opposite_of_model_y_witness :
  0 < length (columns [mkColumn (Name "y") number [Num 1]]) /\
  is_multilabel
    (_generate_model_final plain (treatment_of three_levels)
       [mkColumn (Name "y") number [Num 1]]) = true /\
  is_tabular
    (_generate_model_y plain None [mkColumn (Name "y") number [Num 1]]) = true.
Proof.
  assert (Hpos : 0 < length (columns [mkColumn (Name "y") number [Num 1]]))
    by (cbn; lia).
  split; [exact Hpos|].
  destruct (model_final_opposite_of_model_y plain None
              (treatment_of three_levels)
              [mkColumn (Name "y") number [Num 1]] Hpos)
    as (Hfinal & _ & Hy & _).
  split; [apply Hfinal | apply Hy]; reflexivity.
Defined.

Lemma predict_effect_unfitted_witness :
  predict_effect classify (-10) 10 logit_like three_levels None fresh
    = (inl NotFittedError, fresh).
Proof.
  apply (predict_effect_unfitted classify (-10) 10 logit_like). reflexivity.
Defined.

(** The sample predictor is fitted, and its estimator is the
    non-parametric one. *)
Lemma fitted_has_model :
  exists m, causal_model (self (fitted classify logit_like)) = Some m /\
            is_linear m = false.
Proof. eexists. split; vm_compute; reflexivity. Qed.

Lemma predict_effect_fitted_raises_witness :
  exists e w',
    predict_effect classify (-10) 10 logit_like three_levels None
      (fitted classify logit_like) = (inl e, w') /\
    (~ In call_effect (calls (fitted classify logit_like)) ->
     ~ In call_effect (calls w')).
Proof.
  eapply (predict_effect_fitted_raises classify (-10) 10 logit_like).
  vm_compute. reflexivity.
Defined.

(** A fit that fails inside the estimation library has stored the causal
    model already: the predictor is not reported as unfitted afterwards. *)
Lemma failed_fit_keeps_model :
  let w := snd (fit classify (-10) 10 logit_like (Some (ValueError "no model"))
                  three_levels None fresh) in
  (exists m, causal_model (self w) = Some m) /\
  fst (predict_effect classify (-10) 10 logit_like three_levels None w)
    = inl (NameError "current_intervention_column").
Proof. split; [eexists|]; vm_compute; reflexivity. Qed.

(** On the fitted sample predictor, [predict_effect] stops at the name
    [current_intervention_column] and leaves the predictor as it was. *)
Lemma predict_effect_after_fit :
  predict_effect classify (-10) 10 logit_like three_levels None
    (fitted classify logit_like)
  = (inl (NameError "current_intervention_column"), fitted classify logit_like).
Proof. vm_compute. reflexivity. Qed.

Lemma treatment_holdout_fraction_witness :
  exists h,
    _generate_model_t classify plain None (treatment_of three_levels) =
      inr (SKLearnTabularWrapper (mkTabularPredictor "t" multiclass)
             [] (args_of plain) (Some h)) /\
    (h == 3 # 3)%Q /\ (0 < h <= 1)%Q.
Proof.
  destruct (treatment_holdout_fraction classify plain None
              (treatment_of three_levels)
              (mkColumn (Name "t") object [Str "a"; Str "b"; Str "c"])
              eq_refl) as [Hcat _].
  - cbn. lia.
  - reflexivity.
  - destruct (Hcat eq_refl) as (h & Hgen & Hh & Hunit & _).
    exists h. split; [exact Hgen|]. split; [exact Hh | exact Hunit].
Defined.

(** With three rows and three levels the holdout fraction is 1: every
    row is held out, so the fraction is not a validation split. *)
Lemma holdout_fraction_not_a_validation_split :
  ~ (forall w h,
       _generate_model_t classify plain None (treatment_of three_levels) = inr w ->
       holdout_frac_of w = Some h -> validation_split h).
Proof.
  intros H.
  destruct (H _ 1%Q eq_refl eq_refl) as [_ Hlt].
  exact (Qlt_irrefl _ Hlt).
Qed.

Lemma encoded_outcome_within_clip_range_witness :
  cells (within (-10) 10)
    [ mkColumn (Pos 0) number [Num 10; Num (-10); Num 10];
      mkColumn (Pos 1) number [Num (-10); Num 10; Num (-10)] ].
Proof.
  eapply (encoded_outcome_within_clip_range classify (-10) 10 logit_like
            two_labels None fresh).
  - exact logit_like_spec.
  - discriminate.
  - reflexivity.
  - discriminate.
  - vm_compute. reflexivity.
Defined.

Lemma numeric_target_encode_decode_witness :
  exists c,
    In c three_levels /\ col_name c = Name "y" /\
    (classify c = numeric \/ classify c = integer) /\
    _generate_TYX classify (-10) 10 logit_like three_levels None fresh
      = (inr ([mkColumn (Name "t") object [Str "a"; Str "b"; Str "c"]],
              [mkColumn (Name "t_new") object [Str "b"; Str "c"; Str "a"]],
              [c], None), fresh) /\
    forall effects,
      decode (outcome_featurizer (self fresh)) [c] effects
        = VAdd (VFrame [c]) (VSqueeze effects) /\
      applies_expit (decode (outcome_featurizer (self fresh)) [c] effects)
        = applies_expit effects.
Proof.
  apply (numeric_target_encode_decode classify (-10) 10 logit_like
           three_levels None fresh); try reflexivity.
  cbn. repeat constructor; rewrite list_elem_of_In; cbn; intuition discriminate.
Defined.

End InterventionFacts.

(* ================================================================== *)
(** * Properties of the preprocessing helpers *)

Module PreprocessingFacts.

Import Preprocessing Imputation Samples FrameFacts.

(** ** The pattern *)

Section Pattern.

#[local] Arguments is_hspace : simpl never.
#[local] Arguments is_digit : simpl never.

Lemma append_cons (c : ascii) (s t : string) :
  String c s +:+ t = String c (s +:+ t).
Proof. reflexivity. Qed.

Lemma append_nil_l (s : string) : "" +:+ s = s.
Proof. reflexivity. Qed.

Lemma append_nil_r (s : string) : s +:+ "" = s.
Proof.
  induction s as [|c s IH]; [reflexivity|]. rewrite append_cons, IH. reflexivity.
Qed.

Lemma append_assoc (a b c : string) : (a +:+ b) +:+ c = a +:+ (b +:+ c).
Proof.
  induction a as [|x a IH]; [reflexivity|]. rewrite !append_cons, IH. reflexivity.
Qed.

Lemma drop_hspace_spec (s : string) :
  exists ws, s = ws +:+ drop_hspace s /\ all_chars is_hspace ws = true /\
             starts_with is_hspace (drop_hspace s) = false.
Proof.
  induction s as [|c s IH]; cbn.
  - exists "". auto.
  - destruct (is_hspace c) eqn:E.
    + destruct IH as (ws & Hs & Hws & Hst). exists (String c ws).
      rewrite append_cons. cbn. rewrite E, Hws.
      repeat split; [congruence | assumption].
    + exists "". cbn. auto.
Qed.

Lemma span_digits_spec (s d r : string) :
  span_digits s = (d, r) ->
  s = d +:+ r /\ all_chars is_digit d = true /\ starts_with is_digit r = false.
Proof.
  revert d r. induction s as [|c s IH]; intros d r H; cbn in H.
  - inversion H; subst. auto.
  - destruct (is_digit c) eqn:E.
    + destruct (span_digits s) as [d' r'] eqn:Hs. inversion H; subst.
      destruct (IH d' r eq_refl) as (-> & Hd & Hr). rewrite append_cons. cbn.
      rewrite E, Hd. auto.
    + inversion H; subst. cbn. auto.
Qed.

Lemma at_dollar_spec (s : string) :
  at_dollar s = true <-> s = "" \/ s = String "010" "".
Proof.
  destruct s as [|c [|c' s]]; cbn; split; intros H; auto; try discriminate.
  - right. apply Ascii.eqb_eq in H. subst. reflexivity.
  - destruct H as [H|H]; [discriminate|]. inversion H. reflexivity.
  - destruct H as [H|H]; discriminate.
Qed.

Lemma extract_tail_sound (num s3 d : string) :
  extract_tail num s3 = Some d ->
  d = num /\
  exists ws2 ws3 tail,
    s3 = ws2 +:+ String "%" (ws3 +:+ tail) /\
    all_chars is_hspace ws2 = true /\ all_chars is_hspace ws3 = true /\
    (tail = "" \/ tail = String "010" "").
Proof.
  unfold extract_tail. intros H.
  destruct (drop_hspace_spec s3) as (ws2 & Hs3 & Hws2 & _).
  destruct (drop_hspace s3) as [|c r]; [discriminate|].
  destruct (Ascii.eqb_spec c "%") as [->|Hc].
  - destruct (drop_hspace_spec r) as (ws3 & Hr & Hws3 & _).
    destruct (at_dollar (drop_hspace r)) eqn:Hd; [|discriminate].
    inversion H; subst d. split; [reflexivity|].
    apply at_dollar_spec in Hd.
    exists ws2, ws3, (drop_hspace r). rewrite <- Hr. auto.
  - exfalso. revert H.
    destruct c as [[] [] [] [] [] [] [] []]; try discriminate.
    contradiction Hc. reflexivity.
Qed.

Lemma extract_sound (s d : string) : extract s = Some d -> pattern_match s d.
Proof.
  unfold extract. intros H.
  destruct (drop_hspace_spec s) as (ws1 & Hs & Hws1 & _).
  destruct (span_digits (drop_hspace s)) as [int s2] eqn:Hint.
  apply span_digits_spec in Hint. destruct Hint as (Hs1 & Hdint & _).
  assert (Hne : int <> "") by (intros ->; discriminate H).
  assert (Hcase : exists frac s3,
            s2 = frac +:+ s3 /\
            (frac = "" \/ exists ds, frac = String "." ds /\
                            all_chars is_digit ds = true /\ ds <> "") /\
            extract_tail (int +:+ frac) s3 = Some d).
  { destruct int as [|i0 int']; [contradiction|].
    assert (Hplain : extract_tail (String i0 int') s2 = Some d ->
              exists frac s3, s2 = frac +:+ s3 /\
                (frac = "" \/ exists ds, frac = String "." ds /\
                                all_chars is_digit ds = true /\ ds <> "") /\
                extract_tail (String i0 int' +:+ frac) s3 = Some d).
    { intros Ht. exists "", s2. rewrite append_nil_r. auto. }
    destruct s2 as [|c r]; [exact (Hplain H)|].
    destruct (Ascii.eqb_spec c ".") as [->|Hc].
    - destruct (span_digits r) as [ds r'] eqn:Hds.
      apply span_digits_spec in Hds. destruct Hds as (-> & Hdds & _).
      destruct ds as [|d0 ds']; [exact (Hplain H)|].
      exists (String "." (String d0 ds')), r'. split; [reflexivity|].
      split; [|exact H]. right. exists (String d0 ds'). auto.
    - apply Hplain. revert H.
      destruct c as [[] [] [] [] [] [] [] []]; try (intros H; exact H).
      contradiction Hc. reflexivity. }
  destruct Hcase as (frac & s3 & -> & Hfrac & Htail).
  apply extract_tail_sound in Htail.
  destruct Htail as (-> & ws2 & ws3 & tail & -> & Hws2 & Hws3 & Htl).
  rewrite Hs, Hs1.
  exact (pattern_match_intro ws1 int frac ws2 ws3 tail Hws1 Hdint Hne Hfrac
           Hws2 Hws3 Htl).
Qed.

Lemma digit_not_hspace (c : ascii) : is_digit c = true -> is_hspace c = false.
Proof. destruct c as [[] [] [] [] [] [] [] []]; (reflexivity || discriminate). Qed.

Lemma hspace_not_digit (c : ascii) : is_hspace c = true -> is_digit c = false.
Proof. destruct c as [[] [] [] [] [] [] [] []]; (reflexivity || discriminate). Qed.

Lemma drop_hspace_append (ws r : string) :
  all_chars is_hspace ws = true -> drop_hspace (ws +:+ r) = drop_hspace r.
Proof.
  induction ws as [|c ws IH]; intros H; [reflexivity|].
  cbn in H. apply andb_true_iff in H. destruct H as [Hc Hws].
  rewrite append_cons. cbn. rewrite Hc. exact (IH Hws).
Qed.

Lemma drop_hspace_id (r : string) :
  starts_with is_hspace r = false -> drop_hspace r = r.
Proof. destruct r as [|c r]; cbn; [reflexivity|]. intros ->. reflexivity. Qed.

Lemma span_digits_append (d r : string) :
  all_chars is_digit d = true -> starts_with is_digit r = false ->
  span_digits (d +:+ r) = (d, r).
Proof.
  induction d as [|c d IH]; intros Hd Hr.
  - rewrite append_nil_l. destruct r as [|c r]; [reflexivity|].
    cbn in *. rewrite Hr. reflexivity.
  - cbn in Hd. apply andb_true_iff in Hd. destruct Hd as [Hc Hd].
    rewrite append_cons. cbn. rewrite Hc, (IH Hd Hr). reflexivity.
Qed.

(** The text after the number does not start with a digit, and when
    there is no fraction it does not start with a point either. *)
Lemma tail_starts (ws2 rest : string) :
  all_chars is_hspace ws2 = true ->
  exists c r, ws2 +:+ String "%" rest = String c r /\
              is_digit c = false /\ c <> "."%char.
Proof.
  intros H. destruct ws2 as [|c ws2].
  - exists "%"%char, rest. repeat split. discriminate.
  - cbn in H. apply andb_true_iff in H. destruct H as [Hc _].
    exists c, (ws2 +:+ String "%" rest). rewrite append_cons.
    split; [reflexivity|]. split; [exact (hspace_not_digit c Hc)|].
    intros ->. discriminate Hc.
Qed.

Lemma extract_tail_complete (num ws2 ws3 tail : string) :
  all_chars is_hspace ws2 = true -> all_chars is_hspace ws3 = true ->
  (tail = "" \/ tail = String "010" "") ->
  extract_tail num (ws2 +:+ String "%" (ws3 +:+ tail)) = Some num.
Proof.
  intros Hws2 Hws3 Htail. unfold extract_tail.
  rewrite (drop_hspace_append _ _ Hws2).
  rewrite (drop_hspace_id (String "%" _)) by reflexivity.
  rewrite (drop_hspace_append _ _ Hws3).
  destruct Htail as [->| ->]; reflexivity.
Qed.

Lemma extract_complete (s d : string) : pattern_match s d -> extract s = Some d.
Proof.
  intros H. destruct H as [ws1 int frac ws2 ws3 tail Hws1 Hint Hne Hfrac Hws2 Hws3 Htail].
  unfold extract. rewrite (drop_hspace_append _ _ Hws1).
  destruct int as [|i0 int']; [contradiction|].
  assert (Hi0 : is_digit i0 = true)
    by (cbn in Hint; apply andb_true_iff in Hint; tauto).
  rewrite drop_hspace_id by (cbn; exact (digit_not_hspace i0 Hi0)).
  destruct (tail_starts ws2 (ws3 +:+ tail) Hws2) as (c & r & Hcr & Hcd & Hcp).
  destruct Hfrac as [->|(ds & -> & Hds & Hdne)].
  - rewrite append_nil_l, append_nil_r.
    rewrite span_digits_append; [|exact Hint|rewrite Hcr; exact Hcd].
    cbv zeta iota beta.
    assert (Hs2 :
      match ws2 +:+ String "%" (ws3 +:+ tail) with
      | String "."%char r0 =>
          match span_digits r0 with
          | (EmptyString, _) =>
              (String i0 int', ws2 +:+ String "%" (ws3 +:+ tail))
          | (frac, r') => (String i0 int' +:+ "." +:+ frac, r')
          end
      | _ => (String i0 int', ws2 +:+ String "%" (ws3 +:+ tail))
      end = (String i0 int', ws2 +:+ String "%" (ws3 +:+ tail))).
    { rewrite Hcr. destruct c as [[] [] [] [] [] [] [] []]; try reflexivity.
      contradiction Hcp. reflexivity. }
    rewrite Hs2. apply extract_tail_complete; assumption.
  - rewrite (append_cons "."%char ds).
    rewrite span_digits_append; [|exact Hint|reflexivity].
    cbv zeta iota beta.
    rewrite span_digits_append; [|exact Hds|rewrite Hcr; exact Hcd].
    destruct ds as [|d0 ds']; [contradiction|].
    apply extract_tail_complete; assumption.
Qed.

(** Among the strings of code points below 256, [extract] returns
    group 1 exactly for the strings of the pattern.  A digit or a white
    space above code point 255, which the pattern accepts as well, is
    not a character of these strings. *)
Lemma extract_pattern (s d : string) :
  extract s = Some d <-> pattern_match s d.
Proof. split; [apply extract_sound | apply extract_complete]. Qed.

End Pattern.

(** ** Percentage parsing *)

Lemma extracted_length (c : column) :
  length (extracted c) = length (col_values c).
Proof. unfold extracted. apply length_map. Qed.

(** The missing cells of [extracted] are the cells that do not match. *)
Lemma extracted_missing (c : column) :
  length (List.filter (fun o : option string => negb (bool_decide (is_Some o)))
            (extracted c)) = unmatched c.
Proof.
  unfold extracted, unmatched.
  induction (col_values c) as [|v l IH]; [reflexivity|]. cbn.
  destruct v as [| | |q|s]; cbn; try (f_equal; exact IH).
  destruct (negb (bool_decide (is_Some (extract s)))); cbn;
    [f_equal; exact IH | exact IH].
Qed.

Lemma astype_float_extracted (c : column) :
  astype_float (extracted c) = map parsed (col_values c).
Proof.
  unfold astype_float, extracted. rewrite map_map.
  apply map_ext. intros [| | |q|s]; reflexivity.
Qed.

(** The rate check at one half: at least half of the cells are missing
    after extraction. *)
Lemma parsed_rate_check_half (c : column) :
  parsed_rate_check (extracted c) (1 # 2)
    = Nat.leb (length (col_values c)) (2 * unmatched c).
Proof.
  unfold parsed_rate_check. rewrite extracted_missing, extracted_length.
  destruct (Nat.leb_spec (length (col_values c)) (2 * unmatched c)) as [H|H].
  - apply Qle_bool_iff. unfold Qle. cbn. lia.
  - destruct (Qle_bool _ _) eqn:E; [|reflexivity].
    apply Qle_bool_iff in E. unfold Qle in E. cbn in E. lia.
Qed.

(** C4.  A column is left as it is when the cells that do not match the
    pattern, missing cells included, are at least half of all its cells;
    otherwise every matching cell is replaced by its float and every
    other cell becomes missing.  So ["5%", "10%", "abc"] becomes 5.0,
    10.0, missing and ["5%", "abc", "def"] stays as it is. *)
Theorem transform_column_rule (c : column) :
  transform_column c =
    (if Nat.leb (length (col_values c)) (2 * unmatched c) then c
     else converted c) /\
  transform_column (rates [Str "5%"; Str "10%"; Str "abc"]) =
    mkColumn (Name "rate") number [Num 5; Num 10; NaN] /\
  transform_column (rates [Str "5%"; Str "abc"; Str "def"]) =
    rates [Str "5%"; Str "abc"; Str "def"].
Proof.
  split; [|split; reflexivity].
  unfold transform_column. rewrite parsed_rate_check_half.
  destruct (Nat.leb _ _); [reflexivity|].
  unfold converted. rewrite astype_float_extracted. reflexivity.
Qed.

(** One of the two cells of ["5%", "abc"] matches, which is not fewer
    than half of its non-null cells, and the column is left as it is. *)
Lemma transform_column_exactly_half :
  transform_column (rates [Str "5%"; Str "abc"])
    <> spec_transform_column (rates [Str "5%"; Str "abc"]).
Proof. vm_compute. discriminate. Qed.

(** ** Imputation *)

Section Imputing.

Variable strategy : Sklearn.strategy.

(** The statistic each column gets. *)
Variable stat : column -> cell.

(** When every column has a statistic, the imputer returns every column
    filled with its statistic. *)
Lemma fit_transform_all (X : frame) :
  Sklearn.validate strategy X = inr tt ->
  (forall c, In c X -> Sklearn.statistic strategy (col_values c) = inr (Some (stat c))) ->
  Sklearn.fit_transform strategy X
    = inr (map (fun c => Sklearn.fill (stat c) (col_values c)) X).
Proof.
  intros Hv Hs. unfold Sklearn.fit_transform. rewrite Hv. cbn [ebind].
  rewrite (emapM_all _ (fun c => Some (stat c)) X Hs). cbn [ebind]. f_equal.
  clear. induction X as [|c X IH]; [reflexivity|]. cbn. f_equal. exact IH.
Qed.

Lemma put_filled (dtype_of : column -> list cell -> dtype) (cols : list label)
    (df : frame) :
  Assign.put dtype_of df cols
    (map (fun c => Sklearn.fill (stat c) (col_values c)) (Assign.select df cols))
  = map (filled dtype_of stat cols) df.
Proof.
  unfold Assign.select, filled.
  induction df as [|c df IH]; [reflexivity|]. cbn.
  destruct (mem (col_name c) cols); cbn; f_equal; exact IH.
Qed.

(** Imputing the columns named [cols] and assigning the result back with
    [df[cols] = arr] fills exactly those columns. *)
Lemma impute_selection (cols : list label) (d : dtype) (df : frame) :
  Sklearn.validate strategy (Assign.select df cols) = inr tt ->
  (forall c, In c df -> mem (col_name c) cols = true ->
     Sklearn.statistic strategy (col_values c) = inr (Some (stat c))) ->
  ebind (Sklearn.fit_transform strategy (Assign.select df cols))
        (Assign.setitem df cols d)
  = inr (map (filled (fun _ _ => d) stat cols) df).
Proof.
  intros Hv Hs. rewrite fit_transform_all; [|exact Hv|].
  - cbn [ebind]. unfold Assign.setitem. rewrite length_map, Nat.eqb_refl.
    f_equal. apply put_filled.
  - intros c Hc. unfold Assign.select in Hc. apply filter_In in Hc.
    destruct Hc as [Hin Hm]. exact (Hs c Hin Hm).
Qed.



(** The guarded form [impute_df] uses. *)
Lemma impute_guarded_state (cols : list label) (d : dtype) (df : frame) :
  (cols <> [] -> Sklearn.validate strategy (Assign.select df cols) = inr tt) ->
  (forall c, In c df -> mem (col_name c) cols = true ->
     Sklearn.statistic strategy (col_values c) = inr (Some (stat c))) ->
  (if Nat.ltb 0 (length cols)
   then match ebind (Sklearn.fit_transform strategy (Assign.select df cols))
                    (Assign.setitem df cols d) with
        | inl e => (df, Some e)
        | inr df' => (df', None)
        end
   else (df, None))
  = (map (filled (fun _ _ => d) stat cols) df, None).
Proof.
  intros Hv Hs. destruct cols as [|n cols].
  - cbn. f_equal. symmetry. unfold filled. cbn. apply map_id.
  - cbn [length Nat.ltb Nat.leb].
    rewrite impute_selection; [reflexivity | apply Hv; discriminate | exact Hs].
Qed.

End Imputing.

(** ** The statistics *)











(** ** Filling *)

Lemma fill_no_missing (v : cell) (l : list cell) :
  v <> NaN -> Forall (fun x => x <> NaN) (Sklearn.fill v l).
Proof.
  intros Hv. apply List.Forall_forall. intros x Hx.
  apply in_map_iff in Hx. destruct Hx as (y & <- & _).
  destruct y; cbn; try discriminate. exact Hv.
Qed.

Lemma fill_nothing_missing (v : cell) (l : list cell) :
  Forall (fun x => x <> NaN) l -> Sklearn.fill v l = l.
Proof.
  unfold Sklearn.fill. induction 1 as [|x l Hx _ IH]; [reflexivity|].
  cbn [map]. rewrite IH. destruct x; try reflexivity. contradiction.
Qed.

(** ** [preprocess_data] *)




Section Preprocess.

Import Intervention.

Variable get_type_special_no_ag : column -> type_special.

#[local] Abbreviation cls := get_type_special_no_ag.





Variable loc_dtype : frame -> column -> list cell -> dtype.
Variable one_block : frame -> bool.


End Preprocess.

(** ** [impute_df] with its default imputers *)

Lemma forallb_is_number_select (df : frame) (cols : list label) (c : column) :
  In c (Assign.select df cols) -> is_number c = false ->
  forallb (fun c => match col_dtype c with number => true | object => false end)
    (Assign.select df cols) = false.
Proof.
  intros Hin Hc. destruct (forallb _ _) eqn:E; [|reflexivity].
  rewrite forallb_forall in E. specialize (E c Hin).
  unfold is_number in Hc. rewrite Hc in E. discriminate.
Qed.

Lemma impute_df_default (df : frame) :
  NoDup (columns df) ->
  (forall c v, In c df -> In v (col_values c) -> Sklearn.is_inf v = false) ->
  impute_df df None None = (map default_filled df, None).
Proof.
  intros Hnd Hfin. unfold impute_df.
  set (ncols := columns (List.filter _ df)).
  set (ccols := columns (List.filter _ df)).
  assert (Hn : forall c, In c df -> mem (col_name c) ncols = is_number c).
  { intros c Hin. exact (mem_selected is_number df c Hnd Hin). }
  assert (Hc : forall c, In c df -> mem (col_name c) ccols = is_object c).
  { intros c Hin. exact (mem_selected is_object df c Hnd Hin). }
  cbv zeta.
  set (d1 := Sklearn.output_dtype (Sklearn.constant (Num 0%Q))
               (Assign.select df ncols)).
  set (df1 := map (filled (fun _ _ => d1) (fun _ => Num 0%Q) ncols) df).
  rewrite (impute_guarded_state (Sklearn.constant (Num 0%Q)) (fun _ => Num 0%Q)
             ncols d1 df);
    [fold df1| |reflexivity].
  2:{ intros _. unfold Sklearn.validate. cbn [Sklearn.is_str].
      rewrite existsb_none; [rewrite !andb_false_r; reflexivity|].
      intros v Hv. apply in_flat_map in Hv. destruct Hv as (c & Hcin & Hv).
      apply filter_In in Hcin. exact (Hfin c v (proj1 Hcin) Hv). }
  assert (Hobj : forall c, In c df -> is_object c = true ->
            forallb (fun c => match col_dtype c with number => true | object => false end)
              (Assign.select df1 ccols) = false).
  { intros c Hcin Hobj.
    assert (Hnum : is_number c = false)
      by (unfold is_number, is_object in *; destruct (col_dtype c);
          [discriminate | reflexivity]).
    apply (forallb_is_number_select df1 ccols c); [|exact Hnum].
    apply filter_In. split.
    - subst df1. apply in_map_iff. exists c. split; [|exact Hcin].
      unfold filled. rewrite (Hn c Hcin), Hnum. reflexivity.
    - rewrite (Hc c Hcin). exact Hobj. }
  set (d2 := Sklearn.output_dtype (Sklearn.constant (Str "NA"))
               (Assign.select df1 ccols)).
  rewrite (impute_guarded_state (Sklearn.constant (Str "NA")) (fun _ => Str "NA")
             ccols d2 df1);
    [| |reflexivity].
  2:{ intros Hne. unfold Sklearn.validate.
      destruct ccols as [|n ccols'] eqn:En; [contradiction|].
      assert (Hin : In n (columns (List.filter is_object df))).
      { change (In n ccols). rewrite En. left. reflexivity. }
      rewrite <- En in *. clear En.
      unfold columns in Hin. apply in_map_iff in Hin.
      destruct Hin as (c & Hname & Hcin). apply filter_In in Hcin.
      destruct Hcin as [Hcin Hobj0].
      rewrite (Hobj c Hcin Hobj0). reflexivity. }
  assert (Hd1 : d1 = number).
  { subst d1. cbn [Sklearn.output_dtype].
    rewrite (proj2 (forallb_forall _ _)); [reflexivity|].
    intros c Hcin. apply filter_In in Hcin. destruct Hcin as [Hcin Hm].
    rewrite (Hn c Hcin) in Hm. exact Hm. }
  assert (Hd2 : forall c, In c df -> is_object c = true -> d2 = object).
  { intros c Hcin Hobj0. subst d2. cbn [Sklearn.output_dtype].
    rewrite (Hobj c Hcin Hobj0). reflexivity. }
  clearbody d2. clear Hobj. subst df1. rewrite Hd1. clear Hd1 d1.
  f_equal. rewrite map_map. apply map_ext_in.
  intros c Hin. specialize (Hd2 c Hin).
  specialize (Hn c Hin). specialize (Hc c Hin).
  unfold filled, default_filled, is_number, is_object in *.
  destruct c as [n d vals]. cbn [col_name col_dtype col_values] in *.
  rewrite Hn. destruct d; cbn [col_name]; rewrite Hc; [reflexivity|].
  rewrite (Hd2 eq_refl). reflexivity.
Qed.

(** ** The imputation rule *)


Lemma default_filled_spec (c : column) :
  Forall (fun v => v <> NaN) (col_values (default_filled c)) /\
  (Forall (fun v => v <> NaN) (col_values c) -> default_filled c = c).
Proof.
  unfold default_filled. cbn [col_values]. split.
  - apply fill_no_missing. destruct (col_dtype c); discriminate.
  - intros H. rewrite (fill_nothing_missing _ _ H). destruct c; reflexivity.
Qed.





(** With its default imputers [impute_df] fills a column that is
    entirely missing. *)
Lemma impute_df_default_fills_empty_column :
  impute_df [mkColumn (Name "x") number [NaN; NaN]] None None
    = ([mkColumn (Name "x") number [Num 0; Num 0]], None).
Proof. reflexivity. Qed.


End PreprocessingFacts.

(* ================================================================== *)
(** * Properties of the Bayesian-regression task *)

Module BayesianRegressionFacts.

Import BayesianRegression Samples.

(** The loop stops at the first malformed prior, whatever has been
    stored before. *)
Lemma priors_loop_malformed (priors : list prior) (values : gmap string Q) :
  existsb malformed priors = true ->
  exists before k after,
    priors = (before ++ k :: after)%list /\
    existsb malformed before = false /\
    malformed k = true /\
    priors_loop priors values = inl k.
Proof.
  revert values. induction priors as [|p priors IH]; intros values H;
    [discriminate|].
  cbn [existsb] in H. cbn [priors_loop]. fold (malformed p).
  destruct (malformed p) eqn:Hp.
  - exists [], p, priors. repeat split; reflexivity || assumption.
  - cbn in H.
    destruct (IH (<[prior_key p := value p]> values) H)
      as (before & k & after & -> & Hb & Hk & Hloop).
    exists (p :: before), k, after. cbn [existsb]. rewrite Hp, Hb.
    repeat split; assumption.
Qed.

Lemma priors_loop_well_formed (priors : list prior) (values : gmap string Q) :
  existsb malformed priors = false ->
  exists values', priors_loop priors values = inr values'.
Proof.
  revert values. induction priors as [|p priors IH]; intros values H; cbn.
  - eauto.
  - cbn [existsb] in H. apply orb_false_iff in H. destruct H as [Hp H].
    fold (malformed p). rewrite Hp. apply IH. exact H.
Qed.

(** Every run starts with the copy, the time-zone clean-up and the data
    validation. *)
Lemma run_starts (validation : list (option CheckResult))
    (priors : option (list prior)) (split : Z) (univariate : nat) :
  exists rest,
    fst (run validation priors split univariate)
      = ([ev_copy; ev_sanitize_timezone; ev_validate] ++ rest)%list.
Proof.
  unfold run. destruct (existsb is_critical _); [exists []; reflexivity|].
  destruct (priors_loop _ _); [exists []; reflexivity|].
  eexists. reflexivity.
Qed.

(** C9.  When the data validation reports no critical check, a run whose
    priors contain a prior on a categorical column with a degree other
    than one raises [ValueError] for the first such prior, after the
    copy, the time-zone clean-up and the validation and before any
    expansion, split, tuning or fit. *)
Theorem run_rejects_malformed_prior (validation : list (option CheckResult))
    (priors : list prior) (split : Z) (univariate : nat) :
  existsb is_critical (omap id validation) = false ->
  existsb malformed priors = true ->
  exists before k after,
    priors = (before ++ k :: after)%list /\
    existsb malformed before = false /\
    malformed k = true /\
    run validation (Some priors) split univariate =
      ([ev_copy; ev_sanitize_timezone; ev_validate],
       Raise_ValueError
         "Prior for categorical column can only have polynomial degree of 1" k) /\
    existsb is_fitting_work
      (fst (run validation (Some priors) split univariate)) = false.
Proof.
  intros Hvalid Hbad.
  destruct (priors_loop_malformed priors ∅ Hbad)
    as (before & k & after & Hsplit & Hb & Hk & Hloop).
  exists before, k, after. repeat (split; [assumption|]).
  unfold run. rewrite Hvalid, Hloop. split; reflexivity.
Qed.

Lemma run_rejects_malformed_prior_witness :
  run [] (Some [linear_prior; squared_level; linear_prior]) 20 0 =
    ([ev_copy; ev_sanitize_timezone; ev_validate],
     Raise_ValueError
       "Prior for categorical column can only have polynomial degree of 1"
       squared_level).
Proof.
  destruct (run_rejects_malformed_prior []
              [linear_prior; squared_level; linear_prior] 20 0 eq_refl eq_refl)
    as (before & k & after & Hsplit & Hb & Hk & Hrun & _).
  rewrite Hrun. repeat f_equal.
  destruct before as [|p [|q before]]; cbn in Hsplit; inversion Hsplit; subst;
    try reflexivity; discriminate.
Defined.

(** When the validation reports a critical check, the run returns the
    failure and raises nothing, malformed prior or not. *)
Lemma run_critical_check_returns_failure :
  ~ (exists msg k,
       snd (run [Some critical_check] (Some [squared_level]) 20 0)
         = Raise_ValueError msg k).
Proof. intros (msg & k & H). discriminate H. Qed.

(** Without a malformed prior and without a critical check the run goes
    on to the fitting work. *)
Lemma run_well_formed_priors (validation : list (option CheckResult))
    (priors : list prior) (split : Z) (univariate : nat) :
  existsb is_critical (omap id validation) = false ->
  existsb malformed priors = false ->
  run validation (Some priors) split univariate =
    (([ev_copy; ev_sanitize_timezone; ev_validate]
      ++ fitting_work split univariate)%list,
     Return (mkResult SUCCESS (omap id validation))).
Proof.
  intros Hvalid Hgood. unfold run. rewrite Hvalid.
  destruct (priors_loop_well_formed priors ∅ Hgood) as (values & ->).
  reflexivity.
Qed.

End BayesianRegressionFacts.

(* ================================================================== *)
(** * What imputation leaves alone *)

Module ImputationShape.

Import Preprocessing Imputation Shape FrameFacts PreprocessingFacts.

#[local] Abbreviation kept := (fun v v' : cell => v <> NaN -> v' = v).













(** ** [preprocess_data], where one column may be spread over several *)










End ImputationShape.

(* ================================================================== *)
(** * Imputing twice *)

Module ImputationPaths.

Import Preprocessing Imputation Shape FrameFacts PreprocessingFacts Samples.

Lemma default_filled_idempotent (c : column) :
  default_filled (default_filled c) = default_filled c.
Proof.
  destruct (default_filled_spec c) as [Hfull _].
  destruct (default_filled_spec (default_filled c)) as [_ Hid].
  exact (Hid Hfull).
Qed.

(** On a frame with pairwise distinct labels and no infinite cell,
    imputing with the default imputers a second time changes nothing. *)
Theorem impute_df_default_idempotent (df : frame) :
  NoDup (columns df) ->
  (forall c v, In c df -> In v (col_values c) -> Sklearn.is_inf v = false) ->
  impute_df (fst (impute_df df None None)) None None
    = impute_df df None None.
Proof.
  intros Hnd Hfin. rewrite (impute_df_default df Hnd Hfin). cbn [fst].
  rewrite impute_df_default.
  - f_equal. rewrite map_map. apply map_ext. exact default_filled_idempotent.
  - unfold columns in *. rewrite map_map. cbn. exact Hnd.
  - intros c v Hc Hv. apply in_map_iff in Hc. destruct Hc as (c0 & <- & Hc0).
    unfold default_filled, Sklearn.fill in Hv. cbn in Hv.
    apply in_map_iff in Hv. destruct Hv as (x & <- & Hx).
    destruct (isna x).
    + destruct (col_dtype c0); reflexivity.
    + exact (Hfin c0 x Hc0 Hx).
Qed.

Lemma impute_df_default_idempotent_witness :
  impute_df (fst (impute_df with_gaps None None)) None None
    = impute_df with_gaps None None.
Proof.
  apply (impute_df_default_idempotent with_gaps).
  - cbn. repeat constructor; rewrite list_elem_of_In; cbn; intuition discriminate.
  - intros c v [<-|[<-|[]]] Hv; cbn in Hv;
      repeat (destruct Hv as [<-|Hv]; [reflexivity|]); destruct Hv.
Defined.


End ImputationPaths.

(* ================================================================== *)
(** * Parsing percentages twice *)

Module PercentageShape.

Import Preprocessing FrameFacts PreprocessingFacts.

(** [transform] changes its frame in place.  Applied to the frame it
    has returned, it returns it again when it had converted no column,
    and raises [AttributeError] when it had converted one. *)
Theorem transform_again (X X' : frame) :
  transform X = inr X' ->
  (X' = X -> transform X' = inr X') /\
  (X' <> X -> transform X' = inl AttributeError).
Proof.
  unfold transform. intros H.
  destruct (forallb _ X) eqn:Hobj; [|discriminate]. inversion H; subst X'.
  clear H. split.
  - intros E. rewrite E at 1 2. rewrite Hobj. rewrite E. rewrite E. reflexivity.
  - intros Hne.
    destruct (forallb (fun c => match col_dtype c with object => true | number => false end)
                (map transform_column X)) eqn:Hobj'; [|reflexivity].
    exfalso. apply Hne. clear Hne.
    rewrite forallb_forall in Hobj, Hobj'.
    rewrite <- (map_id X) at 2. apply map_ext_in. intros c Hc.
    specialize (Hobj' (transform_column c) (in_map _ _ _ Hc)).
    unfold transform_column in *.
    destruct (parsed_rate_check (extracted c) (1 # 2)); [reflexivity|].
    discriminate Hobj'.
Qed.

Lemma transform_again_witness :
  exists X',
    transform Samples.some_rates = inr X' /\
    transform X' = inl AttributeError.
Proof.
  eexists. split; [vm_compute; reflexivity|].
  refine (proj2 (transform_again Samples.some_rates _ _) _).
  - vm_compute. reflexivity.
  - discriminate.
Defined.


End PercentageShape.

(* ================================================================== *)
(** * The state of the predictor across its methods *)

Module InterventionState.

Import Intervention FrameFacts InterventionFacts Samples.
Local Open Scope py_scope.

Lemma same_settings_featurizer (f : option OneHotEncoder) (p : predictor) :
  same_settings p (set_outcome_featurizer f p).
Proof. reflexivity. Qed.

Lemma same_settings_model (m : option dml) (p : predictor) :
  same_settings p (set_causal_model m p).
Proof. reflexivity. Qed.

Lemma same_settings_fields (p p' : predictor) :
  same_settings p p' ->
  target p' = target p /\
  current_intervention_column p' = current_intervention_column p /\
  new_intervention_column p' = new_intervention_column p /\
  common_causes p' = common_causes p /\
  cate_alpha p' = cate_alpha p /\
  causal_cv p' = causal_cv p.
Proof.
  unfold same_settings. intros H.
  pose proof (f_equal target H) as H1.
  pose proof (f_equal current_intervention_column H) as H2.
  pose proof (f_equal new_intervention_column H) as H3.
  pose proof (f_equal common_causes H) as H4.
  pose proof (f_equal cate_alpha H) as H5.
  pose proof (f_equal causal_cv H) as H6.
  cbn in *. repeat split; symmetry; assumption.
Qed.

Lemma carries_on_refl (w : world) : carries_on w w.
Proof.
  repeat split; auto. exists []. symmetry. apply app_nil_r.
Qed.

Lemma carries_on_trans (w1 w2 w3 : world) :
  carries_on w1 w2 -> carries_on w2 w3 -> carries_on w1 w3.
Proof.
  intros (S1 & M1 & F1 & l1 & C1) (S2 & M2 & F2 & l2 & C2).
  repeat split; auto.
  - unfold same_settings in *. congruence.
  - exists (l1 ++ l2)%list. rewrite C2, C1, app_assoc. reflexivity.
Qed.

#[local] Abbreviation keeps m :=
  (forall w r w', m w = (r, w') -> carries_on w w').

Lemma keeps_ret {A : Type} (a : A) : keeps (ret a).
Proof. intros w r w' H. inversion H; subst. apply carries_on_refl. Qed.

Lemma keeps_raise {A : Type} (e : exn) : keeps (@raise A e).
Proof. intros w r w' H. inversion H; subst. apply carries_on_refl. Qed.

Lemma keeps_lift {A : Type} (x : exn + A) : keeps (lift x).
Proof. intros w r w' H. inversion H; subst. apply carries_on_refl. Qed.

Lemma keeps_get_self : keeps get_self.
Proof. intros w r w' H. inversion H; subst. apply carries_on_refl. Qed.

Lemma keeps_load_global (n : string) : keeps (load_global n).
Proof.
  unfold load_global. destruct (bool_decide _);
    [apply keeps_ret | apply keeps_raise].
Qed.

Lemma keeps_log (c : call) : keeps (log c).
Proof.
  intros w r w' H. inversion H; subst. repeat split; auto.
  exists [c]. reflexivity.
Qed.

Lemma keeps_set_featurizer (e : OneHotEncoder) :
  keeps (modify_self (set_outcome_featurizer (Some e))).
Proof.
  intros w r w' H. inversion H; subst. cbn. repeat split; eauto.
  exists []. symmetry. apply app_nil_r.
Qed.

Lemma keeps_set_model (m : dml) :
  keeps (modify_self (set_causal_model (Some m))).
Proof.
  intros w r w' H. inversion H; subst. cbn. repeat split; eauto.
  exists []. symmetry. apply app_nil_r.
Qed.

Lemma keeps_bind {A B : Type} (m : M A) (k : A -> M B) :
  keeps m -> (forall a, keeps (k a)) -> keeps (bind m k).
Proof.
  intros Hm Hk w r w' H. unfold bind in H.
  destruct (m w) as [[e|a] w1] eqn:Hmw.
  - inversion H; subst. exact (Hm _ _ _ Hmw).
  - exact (carries_on_trans _ _ _ (Hm _ _ _ Hmw) (Hk a _ _ _ H)).
Qed.

Ltac keeps_step :=
  lazymatch goal with
  | |- forall w r w', bind _ _ w = _ -> _ => apply keeps_bind; [|intros ?]
  | |- forall w r w', ret _ w = _ -> _ => apply keeps_ret
  | |- forall w r w', raise _ w = _ -> _ => apply keeps_raise
  | |- forall w r w', lift _ w = _ -> _ => apply keeps_lift
  | |- forall w r w', get_self w = _ -> _ => apply keeps_get_self
  | |- forall w r w', load_global _ w = _ -> _ => apply keeps_load_global
  | |- forall w r w', log _ w = _ -> _ => apply keeps_log
  | |- forall w r w', modify_self (set_outcome_featurizer (Some _)) w = _ -> _ =>
      apply keeps_set_featurizer
  | |- forall w r w', modify_self (set_causal_model (Some _)) w = _ -> _ =>
      apply keeps_set_model
  | |- forall w r w', (match ?x with _ => _ end) w = _ -> _ => destruct x
  | |- forall w r w', (if ?x then _ else _) w = _ -> _ => destruct x
  | |- forall w r w', (let '(_, _) := ?x in _) w = _ -> _ => destruct x
  end.

Section State.

Variable get_type_special_no_ag : column -> type_special.
Variable LOGIT_MIN_VALUE LOGIT_MAX_VALUE : Q.
Variable logit : Q -> cell.

#[local] Abbreviation generate_TYX :=
  (_generate_TYX get_type_special_no_ag LOGIT_MIN_VALUE LOGIT_MAX_VALUE logit).
#[local] Abbreviation predict :=
  (predict_effect get_type_special_no_ag LOGIT_MIN_VALUE LOGIT_MAX_VALUE logit).
#[local] Abbreviation fit_with :=
  (fit get_type_special_no_ag LOGIT_MIN_VALUE LOGIT_MAX_VALUE logit).

Lemma generate_TYX_keeps (df : frame) (target_proba : option frame) :
  keeps (generate_TYX df target_proba).
Proof.
  unfold _generate_TYX, outcome_featurizer_fit_transform.
  repeat keeps_step.
Qed.

Lemma fit_keeps (dml_fit : option exn) (df : frame) (target_proba : option frame) :
  keeps (fit_with dml_fit df target_proba).
Proof.
  unfold fit. apply keeps_bind; [apply generate_TYX_keeps|].
  intros [[[T0 T1] Y] X]. repeat keeps_step.
Qed.

Lemma predict_effect_keeps (df : frame) (target_proba : option frame) :
  keeps (predict df target_proba).
Proof.
  unfold predict_effect. apply keeps_bind; [apply keeps_get_self|].
  intros self0. destruct (causal_model self0); [|apply keeps_raise].
  apply keeps_bind; [apply generate_TYX_keeps|].
  intros [[[T0 T1] Y] X]. repeat keeps_step.
Qed.

(** No method changes the settings of the predictor, removes a causal
    model or an encoder that is there, or drops a recorded call,
    whether it returns or raises. *)
Theorem methods_carry_on (dml_fit : option exn) (df : frame)
    (target_proba : option frame) (w : world) :
  carries_on w (snd (generate_TYX df target_proba w)) /\
  carries_on w (snd (fit_with dml_fit df target_proba w)) /\
  carries_on w (snd (predict df target_proba w)).
Proof.
  split; [|split].
  - destruct (generate_TYX df target_proba w) as [r w'] eqn:H.
    exact (generate_TYX_keeps _ _ _ _ _ H).
  - destruct (fit_with dml_fit df target_proba w) as [r w'] eqn:H.
    exact (fit_keeps _ _ _ _ _ _ H).
  - destruct (predict df target_proba w) as [r w'] eqn:H.
    exact (predict_effect_keeps _ _ _ _ _ H).
Qed.

End State.

End InterventionState.

(* ================================================================== *)
(** * What [fit] and [_generate_TYX] leave behind *)

Module InterventionFit.

Import Intervention FrameFacts InterventionFacts InterventionState Samples.
Local Open Scope py_scope.

Tactic Notation "bind_next" hyp(H) "as" ident(a) ident(w1) ident(Ha) :=
  apply bind_inr in H; destruct H as (a & w1 & Ha & H).

Lemma bind_same {A B : Type} (m m' : M A) (k : A -> M B) (w : world) :
  m w = m' w -> bind m k w = bind m' k w.
Proof. unfold bind. intros ->. reflexivity. Qed.

Lemma select_common_causes_some (self : predictor) (df : frame)
    (X : option frame) :
  select_common_causes self df = inr X ->
  (is_Some X <-> has_common_causes self = true).
Proof.
  unfold select_common_causes, has_common_causes.
  destruct (common_causes self) as [cc|].
  - destruct cc as [|n cc]; cbn.
    + intros H. inversion H; subst. split; [intros [x Hx]|]; discriminate.
    + destruct (getitems df (n :: cc)) as [e|x]; [discriminate|].
      cbn. intros H. inversion H; subst. split; eauto.
  - intros H. inversion H; subst. split; [intros [x Hx]|]; discriminate.
Qed.

Lemma map_frame_columns (f : cell -> exn + cell) (df df' : frame) :
  map_frame f df = inr df' -> columns df' = columns df.
Proof.
  unfold map_frame. revert df'. induction df as [|c df IH]; intros df' H; cbn in H.
  - inversion H. reflexivity.
  - destruct (emapM f (col_values c)) as [e|v]; [discriminate|]. cbn in H.
    destruct (emapM _ df) as [e|cs]; [discriminate|]. cbn in H.
    inversion H; subst. cbn. f_equal. apply IH. reflexivity.
Qed.

Lemma insert_category_length (x : cell) (l : list cell) :
  length (insert_category x l) = S (length l).
Proof.
  induction l as [|y l IH]; [reflexivity|]. cbn.
  destruct (category_leb x y); cbn; [reflexivity | rewrite IH; reflexivity].
Qed.

Lemma insert_category_In (x v : cell) (l : list cell) :
  In v (insert_category x l) <-> v = x \/ In v l.
Proof.
  induction l as [|y l IH]; cbn.
  - split; intros [H|H]; auto.
  - destruct (category_leb x y); cbn; [split; intros [H|H]; auto|].
    rewrite IH. tauto.
Qed.

(** The categories of a column are its values, each once. *)
Lemma sort_categories_spec (l cs : list cell) :
  sort_categories l = inr cs ->
  length cs = length l /\ forall v, In v cs <-> In v l.
Proof.
  unfold sort_categories. destruct (forallb _ l); [|discriminate].
  intros H. inversion H; subst; clear H.
  induction l as [|x l [IHl IHi]]; cbn; [split; [reflexivity | tauto]|].
  rewrite insert_category_length, IHl. split; [reflexivity|].
  intros v. rewrite insert_category_In, IHi. split; intros [H|H]; auto.
Qed.

Lemma map_frame_length (f : cell -> exn + cell) (df df' : frame) :
  map_frame f df = inr df' -> length df' = length df.
Proof.
  intros H. apply map_frame_columns in H. unfold columns in H.
  rewrite <- (length_map col_name df'), H. apply length_map.
Qed.

(** The indicator columns hold zeros and ones. *)
Lemma onehot_transform_binary (cats : list (list cell)) (X : frame) :
  cells (fun v => v = Num 0%Q \/ v = Num 1%Q) (onehot_transform cats X).
Proof.
  unfold onehot_transform. apply of_ndarray_cells.
  apply List.Forall_forall. intros col Hcol.
  apply in_flat_map in Hcol. destruct Hcol as ([c cs] & _ & Hcol).
  apply in_map_iff in Hcol. destruct Hcol as (cat & <- & _).
  apply List.Forall_forall. intros v Hv.
  apply in_map_iff in Hv. destruct Hv as (x & <- & _).
  destruct (cell_eqb x cat); auto.
Qed.


Lemma cell_eqb_refl (v : cell) : cell_eqb v v = true.
Proof.
  destruct v as [| | |q|s]; cbn; try reflexivity.
  - apply Qeq_bool_iff. reflexivity.
  - apply String.eqb_refl.
Qed.

(** Every value of a list is equal to one of its distinct values. *)
Lemma unique_acc_complete (seen l : list cell) (v : cell) :
  In v l ->
  existsb (cell_eqb v) seen = true \/
  existsb (cell_eqb v) (unique_acc seen l) = true.
Proof.
  revert seen. induction l as [|x l IH]; intros seen Hv; [destruct Hv|].
  cbn [unique_acc]. destruct Hv as [->|Hv].
  - destruct (existsb (cell_eqb v) seen) eqn:E; [left; reflexivity|].
    right. cbn. rewrite cell_eqb_refl. reflexivity.
  - destruct (existsb (cell_eqb x) seen) eqn:E; [apply IH; exact Hv|].
    destruct (IH (x :: seen) Hv) as [H|H].
    + cbn in H. apply orb_true_iff in H. destruct H as [H|H].
      * right. cbn. rewrite H. reflexivity.
      * left. exact H.
    + right. cbn. rewrite H. apply orb_true_r.
Qed.


(** ** The exceptions [_generate_TYX] can end with *)

Lemma emapM_inl {A B : Type} (f : A -> exn + B) (l : list A) (e : exn) :
  emapM f l = inl e -> exists a, In a l /\ f a = inl e.
Proof.
  induction l as [|a l IH]; cbn; [discriminate|].
  destruct (f a) as [e'|b] eqn:Ha; cbn.
  - intros H. inversion H; subst. exists a. split; [left; reflexivity | exact Ha].
  - destruct (emapM f l) as [e'|bs]; cbn; [|discriminate].
    intros H. inversion H; subst. destruct (IH eq_refl) as (a' & Hin & Ha').
    exists a'. split; [right; exact Hin | exact Ha'].
Qed.

Lemma getitem_inl (df : frame) (n : string) (e : exn) :
  getitem df n = inl e -> e = KeyError n.
Proof.
  unfold getitem. destruct (List.filter _ df); intros H; inversion H.
  reflexivity.
Qed.

Lemma select_common_causes_inl (self : predictor) (df : frame) (e : exn) :
  select_common_causes self df = inl e -> exists n, e = KeyError n.
Proof.
  unfold select_common_causes. destruct (common_causes self) as [cc|];
    [|discriminate].
  destruct (Nat.ltb 0 (length cc)); [|discriminate].
  unfold getitems. destruct (emapM (getitem df) cc) as [e'|fs] eqn:E;
    cbn; [|discriminate].
  intros H. inversion H; subst. apply emapM_inl in E.
  destruct E as (n & _ & Hn). exists n. exact (getitem_inl _ _ _ Hn).
Qed.

Lemma map_frame_inl (f : cell -> exn + cell) (df : frame) (e : exn) :
  map_frame f df = inl e -> exists v, f v = inl e.
Proof.
  unfold map_frame. intros H. apply emapM_inl in H.
  destruct H as (c & _ & Hc).
  destruct (emapM f (col_values c)) as [e'|vs] eqn:E; cbn in Hc;
    [|discriminate].
  inversion Hc; subst. apply emapM_inl in E. destruct E as (v & _ & Hv).
  exists v. exact Hv.
Qed.

Lemma onehot_categories_inl (X : frame) (e : exn) :
  onehot_categories X = inl e -> e = TypeError.
Proof.
  unfold onehot_categories. intros H. apply emapM_inl in H.
  destruct H as (c & _ & Hc). unfold sort_categories in Hc.
  destruct (forallb _ _); inversion Hc. reflexivity.
Qed.

#[local] Abbreviation fitted_errors m :=
  (forall w e w', m w = (inl e, w') -> e <> NotFittedError).

Lemma fitted_errors_ret {A : Type} (a : A) : fitted_errors (ret a).
Proof. intros w e w' H. discriminate H. Qed.

Lemma fitted_errors_get_self : fitted_errors get_self.
Proof. intros w e w' H. discriminate H. Qed.

Lemma fitted_errors_modify_self (f : predictor -> predictor) :
  fitted_errors (modify_self f).
Proof. intros w e w' H. discriminate H. Qed.

Lemma fitted_errors_log (c : call) : fitted_errors (log c).
Proof. intros w e w' H. discriminate H. Qed.

Lemma fitted_errors_lift {A : Type} (x : exn + A) :
  (forall e, x = inl e -> e <> NotFittedError) -> fitted_errors (lift x).
Proof. intros Hx w e w' H. inversion H; subst. apply Hx. reflexivity. Qed.

Lemma fitted_errors_bind {A B : Type} (m : M A) (k : A -> M B) :
  fitted_errors m -> (forall a, fitted_errors (k a)) -> fitted_errors (bind m k).
Proof.
  intros Hm Hk w e w' H. unfold bind in H.
  destruct (m w) as [[e0|a] w1] eqn:Hmw.
  - inversion H; subst. exact (Hm _ _ _ Hmw).
  - exact (Hk a _ _ _ H).
Qed.

Section Fit.

Variable get_type_special_no_ag : column -> type_special.
Variable LOGIT_MIN_VALUE LOGIT_MAX_VALUE : Q.
Variable logit : Q -> cell.

#[local] Abbreviation cls := get_type_special_no_ag.
#[local] Abbreviation generate_TYX :=
  (_generate_TYX get_type_special_no_ag LOGIT_MIN_VALUE LOGIT_MAX_VALUE logit).
#[local] Abbreviation fit_with :=
  (fit get_type_special_no_ag LOGIT_MIN_VALUE LOGIT_MAX_VALUE logit).
#[local] Abbreviation predict :=
  (predict_effect get_type_special_no_ag LOGIT_MIN_VALUE LOGIT_MAX_VALUE logit).

(** What [_generate_TYX] has read when it returns. *)
Lemma generate_TYX_reads (df : frame) (target_proba : option frame)
    (w w' : world) (T0 T1 Y : frame) (X : option frame) :
  generate_TYX df target_proba w = (inr (T0, T1, Y, X), w') ->
  select_common_causes (self w) df = inr X /\
  getitem df (current_intervention_column (self w)) = inr T0 /\
  getitem df (new_intervention_column (self w)) = inr T1.
Proof.
  intros H. unfold _generate_TYX in H.
  bind_next H as s w1 Hs. inversion Hs; subst; clear Hs.
  bind_next H as X0 w2 HX. apply lift_inr in HX. destruct HX as [HX ->].
  bind_next H as Y0 w3 HY.
  bind_next H as t0 w4 Ht0. apply lift_inr in Ht0. destruct Ht0 as [Ht0 ->].
  bind_next H as t1 w5 Ht1. apply lift_inr in Ht1. destruct Ht1 as [Ht1 ->].
  inversion H; subst. auto.
Qed.

(** [fit] stores the causal model before the estimator is fitted.  When
    the estimator raises, [fit] raises the same exception and leaves the
    state a successful fit leaves, causal model included. *)
Theorem fit_estimator_raises (e : exn) (df : frame)
    (target_proba : option frame) (w : world) :
  fit_with (Some e) df target_proba w =
    (match fst (fit_with None df target_proba w) with
     | inr _ => inl e
     | inl e' => inl e'
     end, snd (fit_with None df target_proba w)) /\
  (fst (fit_with None df target_proba w) = inr tt ->
   is_Some (causal_model (self (snd (fit_with (Some e) df target_proba w))))).
Proof.
  unfold fit, bind.
  destruct (generate_TYX df target_proba w) as [[e0|[[[T0 T1] Y] X]] w1].
  - cbn. split; [reflexivity | discriminate].
  - unfold get_self, lift, modify_self, log, raise, ret. cbn [self calls].
    destruct (_generate_model_t _ _ _ _) as [e1|mt];
      [cbn; split; [reflexivity | discriminate]|].
    destruct (_generate_dml_model _ _ _ _ _ _ _) as [e2|m];
      [cbn; split; [reflexivity | discriminate]|].
    cbn. split; [reflexivity | eauto].
Qed.

(** The causal model a fit that returns has stored: it is the linear
    estimator exactly when there are common causes or a confidence
    level, it has a featurizer exactly when there are common causes, its
    treatment is never declared discrete, and it takes the number of
    folds of the predictor.  In particular the model is the linear one
    whenever [check_params] warns about [cate_alpha]. *)
Theorem fit_model_shape (df : frame) (target_proba : option frame)
    (w w' : world) :
  fit_with None df target_proba w = (inr tt, w') ->
  exists m,
    causal_model (self w') = Some m /\
    (is_linear m = true <->
     has_common_causes (self w) = true \/ is_Some (cate_alpha (self w))) /\
    (is_Some (featurizer_of m) <-> has_common_causes (self w) = true) /\
    discrete_treatment_of m = false /\
    cv_of m = causal_cv (self w) /\
    (In cate_alpha_ignored (check_params cls (self w) df target_proba) ->
     is_linear m = true).
Proof.
  intros H. unfold fit in H.
  bind_next H as tyx w1 Htyx. destruct tyx as [[[T0 T1] Y] X].
  pose proof (generate_TYX_keeps _ _ _ _ _ _ _ _ _ Htyx) as (Hs & _).
  apply same_settings_fields in Hs.
  destruct Hs as (_ & _ & _ & Hcc & Hca & Hcv).
  apply generate_TYX_reads in Htyx. destruct Htyx as (HX & _ & _).
  apply select_common_causes_some in HX.
  bind_next H as self1 w2 Hself. inversion Hself; subst; clear Hself.
  bind_next H as mt w3 Hmt. apply lift_inr in Hmt. destruct Hmt as [Hmt ->].
  bind_next H as m w4 Hm. apply lift_inr in Hm. destruct Hm as [Hm ->].
  bind_next H as u w5 Hu. inversion Hu; subst; clear Hu.
  bind_next H as u' w6 Hu'. inversion Hu'; subst; clear Hu'.
  inversion H; subst; clear H. cbn [self causal_model set_causal_model].
  exists m. split; [reflexivity|].
  assert (Hhas : has_common_causes (self w2) = has_common_causes (self w)).
  { unfold has_common_causes. rewrite Hcc. reflexivity. }
  destruct (getseries T0 (current_intervention_column (self w2))) as [e|t] eqn:Ht.
  { unfold _generate_dml_model in Hm. rewrite Ht in Hm. discriminate. }
  rewrite (dml_model_found cls _ _ _ _ _ _ _ Ht) in Hm.
  rewrite Hhas, Hca, Hcv in Hm.
  assert (Hlin : In cate_alpha_ignored (check_params cls (self w) df target_proba) ->
                 is_Some (cate_alpha (self w))).
  { unfold check_params. intros Hin. apply in_app_iff in Hin.
    destruct Hin as [Hin|Hin].
    - destruct (_ && _); [|destruct Hin]. destruct Hin as [Hin|[]].
      discriminate Hin.
    - destruct (negb _); [|destruct Hin]. cbn in Hin.
      destruct (cate_alpha (self w)); [eauto | destruct Hin]. }
  destruct (has_common_causes (self w)) eqn:Hh.
  - cbn in Hm. inversion Hm; subst. cbn.
    repeat split; eauto.
  - destruct X as [x|]; [destruct HX as [HX _]; discriminate HX; eauto|].
    destruct (cate_alpha (self w)) as [a|]; cbn in Hm; inversion Hm; subst; cbn.
    + repeat split; eauto; try discriminate. intros [y Hy]. discriminate.
    + repeat split; try discriminate; try reflexivity.
      * intros [Hf|[y Hy]]; discriminate.
      * intros [y Hy]. discriminate.
      * intros Hin. destruct (Hlin Hin) as [y Hy]. discriminate.
Qed.


(** With a target among the numeric columns, [_generate_TYX] returns the
    selected frames and leaves the state as it is, whatever matrix is
    passed. *)
Lemma generate_TYX_numeric (df : frame) (target_proba : option frame)
    (w : world) :
  numeric_target cls (self w) df = true ->
  generate_TYX df target_proba w =
    (ebind (select_common_causes (self w) df) (fun X =>
     ebind (getitem df (target (self w))) (fun Y =>
     ebind (getitem df (current_intervention_column (self w))) (fun T0 =>
     ebind (getitem df (new_intervention_column (self w))) (fun T1 =>
     inr (T0, T1, Y, X))))), w).
Proof.
  unfold numeric_target. intros Hn.
  unfold _generate_TYX, bind, get_self, lift, ret. cbn [self].
  destruct (select_common_causes (self w) df) as [e|X]; [reflexivity|].
  rewrite Hn. cbn [ebind].
  destruct (getitem df (target (self w))) as [e|Y]; [reflexivity|].
  cbn [ebind].
  destruct (getitem df (current_intervention_column (self w))) as [e|T0];
    [reflexivity|].
  cbn [ebind].
  destruct (getitem df (new_intervention_column (self w))) as [e|T1];
    reflexivity.
Qed.

(** Whenever [check_params] warns that [target_proba] will be ignored,
    the target is numeric and a matrix was passed, and the matrix is
    ignored indeed: [_generate_TYX] and [fit] do with it what they do
    without it, and [_generate_TYX] leaves the state untouched. *)
Theorem check_params_target_proba (df : frame) (target_proba : option frame)
    (w : world) :
  In target_proba_ignored (check_params cls (self w) df target_proba) ->
  numeric_target cls (self w) df = true /\
  is_Some target_proba /\
  generate_TYX df target_proba w = generate_TYX df None w /\
  snd (generate_TYX df target_proba w) = w /\
  forall dml_fit,
    fit_with dml_fit df target_proba w = fit_with dml_fit df None w.
Proof.
  intros Hin.
  assert (H : numeric_target cls (self w) df = true /\ is_Some target_proba).
  { unfold check_params in Hin. unfold numeric_target.
    apply in_app_iff in Hin. destruct Hin as [Hin|Hin].
    - destruct (mem _ _); [|destruct Hin].
      destruct target_proba; [eauto | destruct Hin].
    - destruct (_ && _); [|destruct Hin]. destruct Hin as [Hin|[]].
      discriminate Hin. }
  destruct H as [Hn Hp]. split; [exact Hn|]. split; [exact Hp|].
  rewrite (generate_TYX_numeric df target_proba w Hn).
  rewrite (generate_TYX_numeric df None w Hn).
  split; [reflexivity|]. split; [reflexivity|].
  intros dml_fit. unfold fit. apply bind_same.
  rewrite (generate_TYX_numeric df target_proba w Hn).
  rewrite (generate_TYX_numeric df None w Hn). reflexivity.
Qed.


(** With a target that is not numeric and a class-probability matrix
    passed, [_generate_TYX] replaces the encoder by one that is not
    fitted, records the logit transform and no fit of the encoder, and
    returns an outcome with the column labels of the matrix. *)
Theorem generate_TYX_with_target_proba (df proba : frame) (w w' : world)
    (T0 T1 Y : frame) (X : option frame) :
  numeric_target cls (self w) df = false ->
  generate_TYX df (Some proba) w = (inr (T0, T1, Y, X), w') ->
  self w' = set_outcome_featurizer (Some (mkEncoder None)) (self w) /\
  calls w' = (calls w ++ [call_logit])%list /\
  columns Y = columns proba.
Proof.
  unfold numeric_target. intros Hcat H. unfold _generate_TYX in H.
  bind_next H as s w1 Hs. inversion Hs; subst; clear Hs.
  bind_next H as X0 w2 HX. apply lift_inr in HX. destruct HX as [HX ->].
  rewrite Hcat in H.
  bind_next H as Y' w3 HY.
  bind_next H as t0 w4 Ht0. apply lift_inr in Ht0. destruct Ht0 as [Ht0 ->].
  bind_next H as t1 w5 Ht1. apply lift_inr in Ht1. destruct Ht1 as [Ht1 ->].
  inversion H; subst; clear H.
  bind_next HY as u w6 Hu. inversion Hu; subst; clear Hu.
  bind_next HY as Y0 w7 HY0. inversion HY0; subst; clear HY0.
  bind_next HY as u' w8 Hu'. inversion Hu'; subst; clear Hu'.
  bind_next HY as L w9 HL. apply lift_inr in HL. destruct HL as [HL ->].
  apply lift_inr in HY. destruct HY as [HY ->].
  cbn [self calls]. split; [reflexivity|]. split; [reflexivity|].
  unfold clip in HY. unfold logit_frame in HL.
  rewrite (map_frame_columns _ _ _ HY). apply (map_frame_columns _ _ _ HL).
Qed.

(** A target column that is missing from the frame, with no matrix
    passed: [_generate_TYX] raises [KeyError] for it, and by then it has
    replaced the encoder by one that is not fitted. *)
Theorem generate_TYX_missing_target (df : frame) (w : world) (X : option frame) :
  mem (Name (target (self w))) (columns df) = false ->
  select_common_causes (self w) df = inr X ->
  generate_TYX df None w =
    (inl (KeyError (target (self w))),
     mkWorld (set_outcome_featurizer (Some (mkEncoder None)) (self w)) (calls w)).
Proof.
  intros Hmem HX.
  assert (Hnone : List.filter
            (fun c => label_eqb (col_name c) (Name (target (self w)))) df = []).
  { apply filter_none. intros c Hc.
    destruct (label_eqb (col_name c) (Name (target (self w)))) eqn:E;
      [|reflexivity].
    apply label_eqb_eq in E.
    assert (Hin : mem (Name (target (self w))) (columns df) = true).
    { apply mem_In. rewrite <- E. unfold columns. apply in_map. exact Hc. }
    congruence. }
  assert (Hnum : mem (Name (target (self w))) (num_cols cls df) = false).
  { destruct (mem _ (num_cols cls df)) eqn:E; [|reflexivity].
    destruct (num_cols_In cls df _ E) as (c & Hc & Hname & _).
    assert (Hin : mem (Name (target (self w))) (columns df) = true).
    { apply mem_In. rewrite <- Hname. unfold columns. apply in_map. exact Hc. }
    congruence. }
  unfold _generate_TYX, bind, get_self, lift, modify_self. cbn [self calls].
  rewrite HX, Hnum. unfold getitem. rewrite Hnone. reflexivity.
Qed.


(** A target that is not numeric, held by one column, with no matrix
    passed: the outcome has one column for each distinct value of the
    target, every cell of it equals one of the two clipping bounds, the
    encoder is left fitted on those values, and the fit of the encoder
    and the logit transform are the calls recorded. *)
Theorem generate_TYX_one_hot (df : frame) (t : column) (w w' : world)
    (T0 T1 Y : frame) (X : option frame) :
  logit_spec logit ->
  (LOGIT_MIN_VALUE <= LOGIT_MAX_VALUE)%Q ->
  numeric_target cls (self w) df = false ->
  getitem df (target (self w)) = inr [t] ->
  generate_TYX df None w = (inr (T0, T1, Y, X), w') ->
  length (columns Y) = length (unique (col_values t)) /\
  cells (at_bound LOGIT_MIN_VALUE LOGIT_MAX_VALUE) Y /\
  (exists cats,
     outcome_featurizer (self w') = Some (mkEncoder (Some [cats])) /\
     length cats = length (unique (col_values t)) /\
     (forall v, In v cats -> In v (col_values t)) /\
     (forall v, In v (col_values t) -> existsb (cell_eqb v) cats = true)) /\
  calls w' = (calls w ++ [call_onehot_fit_transform; call_logit])%list.
Proof.
  unfold numeric_target. intros (L0 & L1 & _) Hle Hcat Ht H.
  unfold _generate_TYX in H.
  bind_next H as s w1 Hs. inversion Hs; subst; clear Hs.
  bind_next H as X0 w2 HX. apply lift_inr in HX. destruct HX as [HX ->].
  rewrite Hcat in H.
  bind_next H as Y' w3 HY.
  bind_next H as t0 w4 Ht0. apply lift_inr in Ht0. destruct Ht0 as [Ht0 ->].
  bind_next H as t1 w5 Ht1. apply lift_inr in Ht1. destruct Ht1 as [Ht1 ->].
  inversion H; subst; clear H.
  bind_next HY as u w6 Hu. inversion Hu; subst; clear Hu.
  bind_next HY as Y0 w7 HY0.
  bind_next HY as u' w8 Hu'. inversion Hu'; subst; clear Hu'.
  bind_next HY as L w9 HL. apply lift_inr in HL. destruct HL as [HL ->].
  apply lift_inr in HY. destruct HY as [HY ->].
  bind_next HY0 as tt0 w10 Htt. apply lift_inr in Htt. destruct Htt as [Htt ->].
  cbn [self] in Htt. rewrite Ht in Htt. inversion Htt; subst; clear Htt.
  unfold outcome_featurizer_fit_transform in HY0.
  bind_next HY0 as u1 w11 Hu1. inversion Hu1; subst; clear Hu1.
  bind_next HY0 as cats w12 Hcats. apply lift_inr in Hcats.
  destruct Hcats as [Hcats ->].
  bind_next HY0 as u2 w13 Hu2. inversion Hu2; subst; clear Hu2.
  inversion HY0; subst; clear HY0.
  unfold onehot_categories in Hcats. cbn [emapM ebind] in Hcats.
  destruct (sort_categories (unique (col_values t))) as [e|cs] eqn:Hsort;
    [discriminate|].
  cbn in Hcats. inversion Hcats; subst; clear Hcats.
  destruct (sort_categories_spec _ _ Hsort) as [Hlen Hin].
  cbn [self calls outcome_featurizer set_outcome_featurizer].
  split; [|split; [|split]].
  - unfold columns. rewrite length_map.
    rewrite (map_frame_length _ _ _ HY), (map_frame_length _ _ _ HL).
    unfold onehot_transform, of_ndarray. rewrite length_imap.
    cbn [combine flat_map]. rewrite app_nil_r, length_map. exact Hlen.
  - apply (map_frame_cells (fun v => v = NegInf \/ v = PosInf) _
             (clip_cell LOGIT_MIN_VALUE LOGIT_MAX_VALUE) L Y); [| |exact HY].
    + intros v v' [->| ->] Hv; cbn in Hv; inversion Hv; subst;
        eexists; (split; [reflexivity|]).
      * left. apply Q.min_l. exact Hle.
      * right. apply Q.max_r. exact Hle.
    + apply (map_frame_cells (fun v => v = Num 0%Q \/ v = Num 1%Q) _
               (logit_cell logit) (onehot_transform [cs] [t]) L);
        [| apply onehot_transform_binary | exact HL].
      intros v v' [->| ->] Hv; cbn in Hv; inversion Hv; subst.
      * left. apply L0. reflexivity.
      * right. apply L1. reflexivity.
  - exists cs. split; [reflexivity|]. split; [exact Hlen|]. split.
    + intros v Hv. apply Hin in Hv. exact (unique_acc_In _ _ _ Hv).
    + intros v Hv.
      destruct (unique_acc_complete [] _ _ Hv) as [H|H]; [discriminate|].
      apply existsb_exists in H. destruct H as (x & Hx & E).
      apply existsb_exists. exists x. split; [apply Hin; exact Hx | exact E].
  - rewrite <- app_assoc. reflexivity.
Qed.


(** The model of the outcome solves one regression problem for each
    outcome column, and the final model one regression problem, however
    many outcome columns there are; neither holds rows out. *)
Theorem outcome_models_problem_types (self : predictor) (X : option frame)
    (T Y : frame) :
  problem_type_of (_generate_model_y self X Y)
    = repeat regression (length (columns Y)) /\
  problem_type_of (_generate_model_final self T Y) = [regression] /\
  holdout_frac_of (_generate_model_y self X Y) = None /\
  holdout_frac_of (_generate_model_final self T Y) = None.
Proof.
  unfold _generate_model_y, _generate_model_final.
  destruct (Nat.eqb (length (columns Y)) 1) eqn:E; cbn.
  - apply Nat.eqb_eq in E. rewrite E. repeat split; reflexivity.
  - repeat split; reflexivity.
Qed.


(** [_generate_TYX] ends with a [KeyError] or a [TypeError] when it
    raises, never with [NotFittedError]. *)
Lemma generate_TYX_fitted_errors (df : frame) (target_proba : option frame) :
  fitted_errors (generate_TYX df target_proba).
Proof.
  assert (Hget : forall n e, getitem df n = inl e -> e <> NotFittedError).
  { intros n e H. rewrite (getitem_inl _ _ _ H). discriminate. }
  unfold _generate_TYX, outcome_featurizer_fit_transform.
  apply fitted_errors_bind; [apply fitted_errors_get_self | intros self0].
  apply fitted_errors_bind.
  { apply fitted_errors_lift. intros e H.
    destruct (select_common_causes_inl _ _ _ H) as (n & ->). discriminate. }
  intros X. apply fitted_errors_bind; [|intros Y].
  - destruct (mem _ _).
    + apply fitted_errors_lift. apply Hget.
    + apply fitted_errors_bind; [apply fitted_errors_modify_self | intros _].
      apply fitted_errors_bind; [|intros Y0].
      * destruct target_proba as [proba|]; [apply fitted_errors_ret|].
        apply fitted_errors_bind;
          [apply fitted_errors_lift; apply Hget | intros t].
        apply fitted_errors_bind; [apply fitted_errors_log | intros _].
        apply fitted_errors_bind; [|intros cats].
        -- apply fitted_errors_lift. intros e H.
           rewrite (onehot_categories_inl _ _ H). discriminate.
        -- apply fitted_errors_bind;
             [apply fitted_errors_modify_self | intros _; apply fitted_errors_ret].
      * apply fitted_errors_bind; [apply fitted_errors_log | intros _].
        apply fitted_errors_bind; [|intros L].
        -- apply fitted_errors_lift. intros e H. unfold logit_frame in H.
           apply map_frame_inl in H. destruct H as (v & Hv).
           destruct v; cbn in Hv; inversion Hv. discriminate.
        -- apply fitted_errors_lift. intros e H. unfold clip in H.
           apply map_frame_inl in H. destruct H as (v & Hv).
           destruct v; cbn in Hv; inversion Hv. discriminate.
  - apply fitted_errors_bind;
      [apply fitted_errors_lift; apply Hget | intros T0].
    apply fitted_errors_bind;
      [apply fitted_errors_lift; apply Hget | intros T1].
    apply fitted_errors_ret.
Qed.

(** What [fit] does when the estimator raises: the same as when it does
    not, but for the exception. *)
Lemma fit_raising (e : exn) (df : frame) (target_proba : option frame)
    (w : world) :
  fit_with (Some e) df target_proba w =
    (match fst (fit_with None df target_proba w) with
     | inr _ => inl e
     | inl e' => inl e'
     end, snd (fit_with None df target_proba w)).
Proof.
  unfold fit, bind.
  destruct (generate_TYX df target_proba w) as [[e0|[[[T0 T1] Y] X]] w1];
    [reflexivity|].
  unfold get_self, lift, modify_self, log, raise, ret. cbn [self calls].
  destruct (_generate_model_t _ _ _ _) as [e1|mt]; [reflexivity|].
  destruct (_generate_dml_model _ _ _ _ _ _ _) as [e2|m]; reflexivity.
Qed.

(** C3.  A fit that the estimator ends with an exception has not
    completed, and yet it leaves the causal model stored: [fit] raises
    the exception of the estimator, and on the predictor it leaves
    [predict_effect] raises for every dataset, but never
    [NotFittedError]. *)
Theorem predict_effect_after_failed_fit (e : exn) (df df' : frame)
    (target_proba target_proba' : option frame) (w : world) :
  fst (fit_with None df target_proba w) = inr tt ->
  let w' := snd (fit_with (Some e) df target_proba w) in
  fst (fit_with (Some e) df target_proba w) = inl e /\
  is_Some (causal_model (self w')) /\
  exists e',
    fst (predict df' target_proba' w') = inl e' /\ e' <> NotFittedError.
Proof.
  intros Hfit. cbv zeta. rewrite (fit_raising e df target_proba w).
  rewrite Hfit. cbn [fst snd]. split; [reflexivity|].
  destruct (fit_with None df target_proba w) as [r w'] eqn:Hw. cbn [fst snd] in *.
  subst r. destruct (fit_stores_model cls _ _ _ df target_proba w w' Hw)
    as (m & Hm).
  split; [eauto|].
  rewrite (predict_effect_fitted cls _ _ _ df' target_proba' w' m Hm).
  destruct (generate_TYX df' target_proba' w') as [[e0|r] w2] eqn:Htyx;
    cbn [fst].
  - exists e0. split; [reflexivity|].
    exact (generate_TYX_fitted_errors _ _ _ _ _ Htyx).
  - eexists. split; [reflexivity | discriminate].
Qed.

(** A returning [_generate_TYX] on a target that is not numeric leaves
    an encoder on the predictor. *)
Lemma generate_TYX_sets_encoder (df : frame) (target_proba : option frame)
    (w w' : world) (r : frame * frame * frame * option frame) :
  numeric_target cls (self w) df = false ->
  generate_TYX df target_proba w = (inr r, w') ->
  is_Some (outcome_featurizer (self w')).
Proof.
  unfold numeric_target. intros Hcat H. unfold _generate_TYX in H.
  bind_next H as s w1 Hs. inversion Hs; subst; clear Hs.
  bind_next H as X0 w2 HX. apply lift_inr in HX. destruct HX as [HX ->].
  rewrite Hcat in H.
  bind_next H as Y' w3 HY.
  bind_next H as t0 w4 Ht0. apply lift_inr in Ht0. destruct Ht0 as [Ht0 ->].
  bind_next H as t1 w5 Ht1. apply lift_inr in Ht1. destruct Ht1 as [Ht1 ->].
  inversion H; subst; clear H.
  bind_next HY as u w6 Hu. inversion Hu; subst; clear Hu.
  assert (Hkeep : forall (A : Type) (m : M A) (r0 : exn + A) (wa wb : world),
            (forall wx rx wy, m wx = (rx, wy) -> carries_on wx wy) ->
            m wa = (r0, wb) ->
            is_Some (outcome_featurizer (self wa)) ->
            is_Some (outcome_featurizer (self wb))).
  { intros A m r0 wa wb Hm Hrun Hsome.
    destruct (Hm _ _ _ Hrun) as (_ & _ & Hf & _). exact (Hf Hsome). }
  refine (Hkeep _ _ _ _ _ _ HY _).
  - intros wx rx wy. apply keeps_bind; [|intros Y0].
    + destruct target_proba as [proba|]; [apply keeps_ret|].
      unfold outcome_featurizer_fit_transform. repeat keeps_step.
    + repeat keeps_step.
  - cbn. eauto.
Qed.

(** C7.  The decode step looks at the encoder the predictor holds, not
    at the target it is given.  Once [_generate_TYX] has encoded a
    target that is not numeric, a later call on a dataset whose target
    is numeric still returns the target column unchanged and leaves the
    state alone, the encoder included; the decode step then sends that
    column and the effects through the inverse logit and the encoder. *)
Theorem numeric_target_after_categorical (df1 df2 : frame)
    (target_proba1 target_proba2 : option frame) (w w1 w2 : world)
    (r1 : frame * frame * frame * option frame) (T0 T1 Y : frame)
    (X : option frame) :
  numeric_target cls (self w) df1 = false ->
  generate_TYX df1 target_proba1 w = (inr r1, w1) ->
  numeric_target cls (self w1) df2 = true ->
  generate_TYX df2 target_proba2 w1 = (inr (T0, T1, Y, X), w2) ->
  getitem df2 (target (self w)) = inr Y /\
  w2 = w1 /\
  exists enc,
    outcome_featurizer (self w2) = Some enc /\
    forall effects,
      decode (outcome_featurizer (self w2)) Y effects
        = VInverseTransform enc (VExpit (VAdd (VFrame Y) effects)) /\
      applies_expit (decode (outcome_featurizer (self w2)) Y effects) = true.
Proof.
  intros Hcat H1 Hnum H2.
  destruct (generate_TYX_sets_encoder _ _ _ _ _ Hcat H1) as (enc & Henc).
  pose proof (generate_TYX_keeps _ _ _ _ _ _ _ _ _ H1) as (Hs & _).
  apply same_settings_fields in Hs. destruct Hs as (Htarget & _).
  rewrite (generate_TYX_numeric df2 target_proba2 w1 Hnum) in H2.
  inversion H2 as [[Hres Hw]]. clear H2. rewrite <- Htarget.
  destruct (select_common_causes (self w1) df2) as [e|X0]; [discriminate|].
  cbn [ebind] in Hres.
  destruct (getitem df2 (target (self w1))) as [e|Y0]; [discriminate|].
  cbn [ebind] in Hres.
  destruct (getitem df2 (current_intervention_column (self w1))) as [e|t0];
    [discriminate|].
  cbn [ebind] in Hres.
  destruct (getitem df2 (new_intervention_column (self w1))) as [e|t1];
    [discriminate|].
  cbn [ebind] in Hres. inversion Hres; subst.
  split; [reflexivity|]. split; [reflexivity|].
  exists enc. split; [exact Henc|]. intros effects. rewrite Henc.
  split; reflexivity.
Qed.

End Fit.

(** ** The statements on sample data *)

Lemma fit_model_shape_witness :
  exists m,
    causal_model (self (fitted classify logit_like)) = Some m /\
    discrete_treatment_of m = false /\
    cv_of m = 1%Z.
Proof.
  destruct (fit_model_shape classify (-10) 10 logit_like three_levels None
              fresh (fitted classify logit_like))
    as (m & Hm & _ & _ & Hd & Hcv & _).
  - vm_compute. reflexivity.
  - exists m. repeat split; assumption.
Defined.

Lemma check_params_target_proba_witness :
  _generate_TYX classify (-10) 10 logit_like three_levels (Some probabilities) fresh
    = _generate_TYX classify (-10) 10 logit_like three_levels None fresh.
Proof.
  apply (check_params_target_proba classify (-10) 10 logit_like three_levels
           (Some probabilities) fresh).
  vm_compute. left. reflexivity.
Defined.

Lemma generate_TYX_with_target_proba_witness :
  exists T0 T1 Y X w',
    _generate_TYX classify (-10) 10 logit_like two_labels (Some probabilities)
      fresh = (inr (T0, T1, Y, X), w') /\
    self w' = set_outcome_featurizer (Some (mkEncoder None)) plain /\
    calls w' = [call_logit] /\
    columns Y = [Name "no"; Name "yes"].
Proof.
  do 5 eexists. split; [vm_compute; reflexivity|].
  eapply (generate_TYX_with_target_proba classify (-10) 10 logit_like two_labels
            probabilities fresh).
  - reflexivity.
  - vm_compute. reflexivity.
Defined.

Lemma generate_TYX_missing_target_witness :
  _generate_TYX classify (-10) 10 logit_like without_target None fresh
    = (inl (KeyError "y"),
       mkWorld (set_outcome_featurizer (Some (mkEncoder None)) plain) []).
Proof.
  apply (generate_TYX_missing_target classify (-10) 10 logit_like
           without_target fresh None); reflexivity.
Defined.

Lemma generate_TYX_one_hot_witness :
  exists T0 T1 Y X w',
    _generate_TYX classify (-10) 10 logit_like two_labels None fresh
      = (inr (T0, T1, Y, X), w') /\
    length (columns Y) = 2 /\
    cells (at_bound (-10) 10) Y.
Proof.
  do 5 eexists. split; [vm_compute; reflexivity|].
  edestruct (generate_TYX_one_hot classify (-10) 10 logit_like two_labels
               (mkColumn (Name "y") object [Str "no"; Str "yes"; Str "no"])
               fresh)
    as (Hlen & Hcells & _).
  - exact logit_like_spec.
  - discriminate.
  - reflexivity.
  - reflexivity.
  - vm_compute. reflexivity.
  - split; [exact Hlen | exact Hcells].
Defined.

Lemma predict_effect_after_failed_fit_witness :
  fst (fit classify (-10) 10 logit_like (Some (ValueError "no model"))
         three_levels None fresh) = inl (ValueError "no model") /\
  exists e',
    fst (predict_effect classify (-10) 10 logit_like three_levels None
           (snd (fit classify (-10) 10 logit_like (Some (ValueError "no model"))
                   three_levels None fresh))) = inl e' /\
    e' <> NotFittedError.
Proof.
  destruct (predict_effect_after_failed_fit classify (-10) 10 logit_like
              (ValueError "no model") three_levels three_levels None None fresh)
    as (Hfit & _ & Hpredict).
  - vm_compute. reflexivity.
  - split; [exact Hfit | exact Hpredict].
Defined.

Lemma numeric_target_after_categorical_witness :
  exists w1 Y,
    snd (_generate_TYX classify (-10) 10 logit_like two_labels None fresh) = w1 /\
    fst (_generate_TYX classify (-10) 10 logit_like three_levels None w1)
      = inr (treatment_of three_levels,
             [mkColumn (Name "t_new") object [Str "b"; Str "c"; Str "a"]],
             Y, None) /\
    Y = outcome_of three_levels /\
    applies_expit (decode (outcome_featurizer (self w1)) Y (VFrame [])) = true.
Proof.
  do 2 eexists. split; [reflexivity|]. split; [vm_compute; reflexivity|].
  split; [reflexivity|].
  edestruct (numeric_target_after_categorical classify (-10) 10 logit_like
               two_labels three_levels None None fresh)
    as (_ & _ & enc & _ & Hdec).
  - reflexivity.
  - vm_compute. reflexivity.
  - reflexivity.
  - vm_compute. reflexivity.
  - exact (proj2 (Hdec (VFrame []))).
Defined.

End InterventionFit.

(* ================================================================== *)
(** * The outcomes of a Bayesian regression run *)

Module BayesianRegressionRuns.

Import BayesianRegression BayesianRegressionFacts Samples.

Lemma find_app {A : Type} (f : A -> bool) (l l' : list A) :
  find f (l ++ l')%list =
    match find f l with
    | Some x => Some x
    | None => find f l'
    end.
Proof.
  induction l as [|x l IH]; [reflexivity|]. cbn.
  destruct (f x); [reflexivity | exact IH].
Qed.

(** What the loop has stored once it has run through priors that are
    all well formed. *)
Lemma priors_loop_values (priors : list prior) (values : gmap string Q) :
  existsb malformed priors = false ->
  exists values',
    priors_loop priors values = inr values' /\
    forall key,
      values' !! key =
        match find (fun k => String.eqb (prior_key k) key) (rev priors) with
        | Some k => Some (value k)
        | None => values !! key
        end.
Proof.
  revert values. induction priors as [|p priors IH]; intros values H.
  - exists values. split; reflexivity.
  - cbn [existsb] in H. apply orb_false_iff in H. destruct H as [Hp H].
    cbn [priors_loop]. fold (malformed p). rewrite Hp.
    destruct (IH (<[prior_key p := value p]> values) H) as (values' & -> & Hv).
    exists values'. split; [reflexivity|].
    intros key. rewrite Hv. cbn [rev]. rewrite find_app.
    destruct (find _ (rev priors)); [reflexivity|]. cbn [find].
    rewrite lookup_insert.
    destruct (String.eqb_spec (prior_key p) key) as [E|E],
             (decide (prior_key p = key)) as [D|D];
      reflexivity || contradiction.
Qed.

(** When no prior is malformed, the loop ends with a dictionary that
    holds, under each key, the value of the last prior with that key,
    and nothing under any other key. *)
Theorem priors_values_last_wins (priors : list prior) :
  existsb malformed priors = false ->
  exists priors_values,
    priors_loop priors ∅ = inr priors_values /\
    forall key,
      priors_values !! key =
        option_map value
          (find (fun k => String.eqb (prior_key k) key) (rev priors)).
Proof.
  intros H. destruct (priors_loop_values priors ∅ H) as (values & Hloop & Hv).
  exists values. split; [exact Hloop|].
  intros key. rewrite Hv. destruct (find _ _); [reflexivity|].
  apply lookup_empty.
Qed.

Lemma priors_loop_inr (priors : list prior) (values values' : gmap string Q) :
  priors_loop priors values = inr values' -> existsb malformed priors = false.
Proof.
  intros H. destruct (existsb malformed priors) eqn:E; [|reflexivity].
  destruct (priors_loop_malformed priors values E) as (b & k & a & _ & _ & _ & Hk).
  congruence.
Qed.

Lemma priors_loop_inl (priors : list prior) (values : gmap string Q) (k : prior) :
  priors_loop priors values = inl k -> existsb malformed priors = true.
Proof.
  intros H. destruct (existsb malformed priors) eqn:E; [reflexivity|].
  destruct (priors_loop_well_formed priors values E) as (v & Hv). congruence.
Qed.

(** A run that finds a critical check or a malformed prior does no
    fitting work.  It returns the status [FAILURE] exactly when a check
    is critical, and the status [SUCCESS] only when no check is critical
    and no prior is malformed; and whatever result it returns lists
    every failed check, critical or not, in the order of the
    validation. *)
Theorem run_outcomes (validation : list (option CheckResult))
    (priors : option (list prior)) (split : Z) (univariate : nat) :
  let r := run validation priors split univariate in
  let failed := omap id validation in
  let given := match priors with None => [] | Some p => p end in
  (existsb is_critical failed = true \/ existsb malformed given = true ->
   existsb is_fitting_work (fst r) = false) /\
  (snd r = Return (mkResult FAILURE failed) <->
   existsb is_critical failed = true) /\
  (forall res, snd r = Return res ->
     validations res = failed /\
     (res_status res = SUCCESS ->
      existsb is_critical failed = false /\ existsb malformed given = false)).
Proof.
  cbv zeta. unfold run.
  destruct (existsb is_critical (omap id validation)) eqn:Hc; cbn [fst snd].
  - split; [|split].
    + intros _. reflexivity.
    + split; reflexivity.
    + intros res H. inversion H; subst. cbn. split; [reflexivity | discriminate].
  - destruct (priors_loop _ ∅) as [k|values] eqn:Hloop; cbn [fst snd].
    + apply priors_loop_inl in Hloop. split; [|split].
      * intros _. reflexivity.
      * split; discriminate.
      * intros res H. discriminate.
    + apply priors_loop_inr in Hloop. split; [|split].
      * intros [H|H]; [discriminate | congruence].
      * split; discriminate.
      * intros res H. inversion H; subst. cbn. split; [reflexivity|].
        intros _. split; [reflexivity | exact Hloop].
Qed.

Lemma priors_values_last_wins_witness :
  exists priors_values,
    priors_loop [linear_prior; squared_level_free; linear_prior_again] ∅
      = inr priors_values /\
    priors_values !! "size" = Some (5 # 1)%Q /\
    priors_values !! "colour" = None.
Proof.
  destruct (priors_values_last_wins
              [linear_prior; squared_level_free; linear_prior_again] eq_refl)
    as (values & Hloop & Hv).
  exists values. split; [exact Hloop|]. rewrite !Hv. split; reflexivity.
Defined.


End BayesianRegressionRuns.

(* ================================================================== *)
(** * Properties of the AutoGluon task *)

Module AutogluonFacts.

Import Autogluon.

Section Facts.

Context {Model : Type} `{EqDecision Model}.
Variable Model_members : list Model.
Variable Model_value : Model -> string.
Variable ag_automm tabpfn : Model.
Variable pyvalue : Type.
Variable space : Type.
Variable model_params_dict : list (Model * params_class pyvalue space).

#[local] Abbreviation available :=
  (get_available_models ag_automm tabpfn pyvalue space model_params_dict).
#[local] Abbreviation to_model_params :=
  (_hyperparameters_to_model_params Model_members Model_value pyvalue space
     model_params_dict).
#[local] Abbreviation convert_item :=
  (convert Model_members Model_value pyvalue space model_params_dict).

(** Whether the loop of [get_available_models] keeps an item. *)
#[local] Abbreviation kept problem_type explain_samples gpu ag_automm_enabled
    tabpfn_enabled :=
  (fun item : Model * params_class pyvalue space =>
     existsb (String.eqb problem_type) (supported_problem_types _ _ (snd item))
     && negb (explain_samples && negb (explain_samples_supported _ _ (snd item)))
     && negb (negb gpu && gpu_required _ _ (snd item))
     && negb (bool_decide (fst item = ag_automm) && negb ag_automm_enabled)
     && negb (bool_decide (fst item = tabpfn) && negb tabpfn_enabled)).

Lemma available_loop (problem_type : string)
    (explain_samples gpu ag_automm_enabled tabpfn_enabled : bool)
    (items : list (Model * params_class pyvalue space)) (acc : list Model) :
  fold_left
    (fun available_models item =>
       let '(model, model_params_class) := item in
       if negb (existsb (String.eqb problem_type)
                  (supported_problem_types _ _ model_params_class))
       then available_models
       else if explain_samples
               && negb (explain_samples_supported _ _ model_params_class)
       then available_models
       else if negb gpu && gpu_required _ _ model_params_class
       then available_models
       else if bool_decide (model = ag_automm) && negb ag_automm_enabled
       then available_models
       else if bool_decide (model = tabpfn) && negb tabpfn_enabled
       then available_models
       else (available_models ++ [model])%list)
    items acc
  = (acc ++ map fst
       (List.filter
          (kept problem_type explain_samples gpu ag_automm_enabled tabpfn_enabled)
          items))%list.
Proof.
  revert acc. induction items as [|[m c] items IH]; intros acc.
  - cbn. symmetry. apply app_nil_r.
  - cbn [fold_left List.filter fst snd]. rewrite IH.
    destruct (existsb _ _); cbn; [|reflexivity].
    destruct (explain_samples && negb _); cbn; [reflexivity|].
    destruct (negb gpu && _); cbn; [reflexivity|].
    destruct (bool_decide (m = ag_automm) && _); cbn; [reflexivity|].
    destruct (bool_decide (m = tabpfn) && _); cbn; [reflexivity|].
    rewrite <- app_assoc. reflexivity.
Qed.

Lemma available_filter (problem_type : string)
    (explain_samples gpu ag_automm_enabled tabpfn_enabled : bool) :
  available problem_type explain_samples gpu ag_automm_enabled tabpfn_enabled
  = map fst
      (List.filter
         (kept problem_type explain_samples gpu ag_automm_enabled tabpfn_enabled)
         model_params_dict).
Proof. unfold get_available_models. apply available_loop. Qed.

Lemma filter_sublist {A : Type} (f g : A -> bool) (l : list A) :
  (forall x, f x = true -> g x = true) ->
  sublist (List.filter f l) (List.filter g l).
Proof.
  intros Hfg. induction l as [|x l IH]; cbn; [constructor|].
  destruct (f x) eqn:Hf.
  - rewrite (Hfg x Hf). apply sublist_skip. exact IH.
  - destruct (g x); [apply sublist_cons|]; exact IH.
Qed.

Lemma map_sublist {A B : Type} (f : A -> B) (l l' : list A) :
  sublist l l' -> sublist (map f l) (map f l').
Proof.
  induction 1; cbn; [constructor | apply sublist_skip | apply sublist_cons];
    assumption.
Qed.

(** Asking for no explanations, having a GPU, or enabling AG_AUTOMM or
    TabPFN never removes a model: the models available under the
    stricter arguments are among those available under the laxer ones,
    in the same order. *)
Theorem available_models_monotone (problem_type : string)
    (explain_samples gpu ag_automm_enabled tabpfn_enabled : bool)
    (explain_samples' gpu' ag_automm_enabled' tabpfn_enabled' : bool) :
  at_least explain_samples' explain_samples ->
  at_least gpu gpu' ->
  at_least ag_automm_enabled ag_automm_enabled' ->
  at_least tabpfn_enabled tabpfn_enabled' ->
  sublist
    (available problem_type explain_samples gpu ag_automm_enabled tabpfn_enabled)
    (available problem_type explain_samples' gpu' ag_automm_enabled'
       tabpfn_enabled').
Proof.
  unfold at_least. intros He Hg Ha Ht. rewrite !available_filter.
  apply map_sublist. apply filter_sublist. intros [m c]. cbn [fst snd].
  destruct (existsb _ _); cbn; [|discriminate].
  destruct explain_samples, explain_samples', (explain_samples_supported _ _ c);
    cbn; try discriminate; try (specialize (He eq_refl); discriminate);
    destruct gpu, gpu', (gpu_required _ _ c);
    cbn; try discriminate; try (specialize (Hg eq_refl); discriminate);
    destruct (bool_decide (m = ag_automm)), ag_automm_enabled, ag_automm_enabled';
    cbn; try discriminate; try (specialize (Ha eq_refl); discriminate);
    destruct (bool_decide (m = tabpfn)), tabpfn_enabled, tabpfn_enabled';
    cbn; try discriminate; try (specialize (Ht eq_refl); discriminate);
    reflexivity.
Qed.

(** The models returned are the keys of [model_params_dict] whose class
    supports the problem type, supports explanations when they are asked
    for, and needs no GPU when there is none; AG_AUTOMM and TabPFN are
    not returned unless they are enabled. *)
Theorem available_models_spec (problem_type : string)
    (explain_samples gpu ag_automm_enabled tabpfn_enabled : bool) (m : Model) :
  In m (available problem_type explain_samples gpu ag_automm_enabled
          tabpfn_enabled) <->
  exists c,
    In (m, c) model_params_dict /\
    In problem_type (supported_problem_types _ _ c) /\
    (explain_samples = true -> explain_samples_supported _ _ c = true) /\
    (gpu_required _ _ c = true -> gpu = true) /\
    (m = ag_automm -> ag_automm_enabled = true) /\
    (m = tabpfn -> tabpfn_enabled = true).
Proof.
  rewrite available_filter, in_map_iff. split.
  - intros ([m' c] & <- & Hin). apply filter_In in Hin. destruct Hin as [Hin Hk].
    cbn [fst snd] in *. exists c. split; [exact Hin|].
    repeat (apply andb_true_iff in Hk; destruct Hk as [Hk ?]).
    apply existsb_exists in Hk. destruct Hk as (s & Hs & E).
    apply String.eqb_eq in E. subst s. split; [exact Hs|].
    repeat split.
    + intros ->. destruct (explain_samples_supported _ _ c);
        [reflexivity | discriminate].
    + intros Hr. rewrite Hr in *. destruct gpu; [reflexivity | discriminate].
    + intros ->. rewrite bool_decide_eq_true_2 in * by reflexivity.
      destruct ag_automm_enabled; [reflexivity | discriminate].
    + intros ->. rewrite bool_decide_eq_true_2 in * by reflexivity.
      destruct tabpfn_enabled; [reflexivity | discriminate].
  - intros (c & Hin & Hpt & He & Hg & Ha & Ht). exists (m, c).
    split; [reflexivity|]. apply filter_In. split; [exact Hin|].
    cbn [fst snd]. repeat (apply andb_true_iff; split).
    + apply existsb_exists. exists problem_type. split; [exact Hpt|].
      apply String.eqb_refl.
    + destruct explain_samples; [rewrite He by reflexivity|]; reflexivity.
    + destruct (gpu_required _ _ c); [rewrite Hg by reflexivity|];
        destruct gpu; reflexivity.
    + destruct (bool_decide_reflect (m = ag_automm)) as [E|E];
        [rewrite (Ha E)|]; reflexivity.
    + destruct (bool_decide_reflect (m = tabpfn)) as [E|E];
        [rewrite (Ht E)|]; reflexivity.
Qed.

Lemma configurations_app (k : ag_name) (converted : list (ag_name * pyvalue))
    (k' : ag_name) (p : pyvalue) :
  configurations pyvalue k (converted ++ [(k', p)])
  = (configurations pyvalue k converted
     ++ (if bool_decide (k' = k) then [p] else []))%list.
Proof.
  unfold configurations. rewrite List.filter_app, map_app. cbn.
  destruct (bool_decide (k' = k)); reflexivity.
Qed.

Lemma add_params_keys (d : list (ag_name * list pyvalue)) (k : ag_name)
    (p : pyvalue) :
  map fst (add_params pyvalue d k p)
  = (if existsb (fun k' => bool_decide (k' = k)) (map fst d)
     then map fst d else map fst d ++ [k])%list.
Proof.
  induction d as [|[k' l] d IH]; [reflexivity|]. cbn.
  destruct (bool_decide (k' = k)); cbn; [reflexivity|].
  rewrite IH. destruct (existsb _ _); reflexivity.
Qed.

Lemma add_params_get (d : list (ag_name * list pyvalue)) (k k' : ag_name)
    (p : pyvalue) :
  dict_get pyvalue k' (add_params pyvalue d k p)
  = if bool_decide (k = k')
    then Some (match dict_get pyvalue k' d with Some l => l | None => [] end
               ++ [p])%list
    else dict_get pyvalue k' d.
Proof.
  unfold dict_get. induction d as [|[k0 l] d IH]; cbn.
  - destruct (bool_decide_reflect (k = k')) as [E|E]; reflexivity.
  - destruct (bool_decide_reflect (k0 = k)) as [E0|E0]; cbn.
    + subst k0. destruct (bool_decide_reflect (k = k')) as [E|E]; reflexivity.
    + destruct (bool_decide_reflect (k0 = k')) as [E1|E1]; cbn.
      * subst k0. rewrite bool_decide_eq_false_2 by congruence. reflexivity.
      * exact IH.
Qed.

Lemma add_params_length (d : list (ag_name * list pyvalue)) (k : ag_name)
    (p : pyvalue) :
  length (concat (map snd (add_params pyvalue d k p)))
  = S (length (concat (map snd d))).
Proof.
  induction d as [|[k' l] d IH]; [reflexivity|]. cbn.
  destruct (bool_decide (k' = k)); cbn.
  - rewrite !length_app. cbn. lia.
  - rewrite !length_app, IH. lia.
Qed.

Lemma dict_get_none (d : list (ag_name * list pyvalue)) (k : ag_name) :
  dict_get pyvalue k d = None <->
  existsb (fun k' => bool_decide (k' = k)) (map fst d) = false.
Proof.
  unfold dict_get. induction d as [|[k' l] d IH]; cbn; [tauto|].
  destruct (bool_decide (k' = k)); cbn; [split; discriminate | exact IH].
Qed.

(** What the loop keeps true of the dictionary it builds. *)
Lemma model_params_loop_grouped (hs : gmap string space)
    (items : list (string * pyvalue)) (d d' : list (ag_name * list pyvalue))
    (done : list (ag_name * pyvalue)) :
  NoDup (map fst d) ->
  (forall k, dict_get pyvalue k d =
             match configurations pyvalue k done with
             | [] => None
             | l => Some l
             end) ->
  length (concat (map snd d)) = length done ->
  model_params_loop Model_members Model_value pyvalue space model_params_dict
    hs items d = inr d' ->
  exists converted,
    Forall2 (fun item kv => convert_item hs (fst item) (snd item) = inr kv)
      items converted /\
    NoDup (map fst d') /\
    (forall k, dict_get pyvalue k d' =
               match configurations pyvalue k (done ++ converted) with
               | [] => None
               | l => Some l
               end) /\
    length (concat (map snd d')) = (length done + length items)%nat.
Proof.
  revert d done. induction items as [|[n p] items IH]; intros d done Hnd Hget Hlen H.
  - cbn in H. inversion H; subst. exists []. rewrite app_nil_r.
    split; [constructor|]. split; [assumption|]. split; [assumption|].
    cbn. lia.
  - cbn [model_params_loop] in H.
    destruct (convert_item hs n p) as [e|[k params]] eqn:Hconv; [discriminate|].
    cbn [ebind] in H.
    destruct (IH (add_params pyvalue d k params) (done ++ [(k, params)])%list)
      as (converted & Hall & Hnd' & Hget' & Hlen'); [| | |exact H|].
    + rewrite add_params_keys.
      destruct (existsb _ (map fst d)) eqn:E; [exact Hnd|].
      apply NoDup_app. split; [exact Hnd|]. split; [|apply NoDup_singleton].
      intros x Hx Hk. apply list_elem_of_singleton in Hk. subst x.
      assert (existsb (fun k' => bool_decide (k' = k)) (map fst d) = true);
        [|congruence].
      apply existsb_exists. exists k. split; [apply list_elem_of_In; exact Hx|].
      apply bool_decide_eq_true_2. reflexivity.
    + intros k'. rewrite add_params_get, configurations_app, Hget.
      destruct (bool_decide (k = k')).
      * destruct (configurations pyvalue k' done); reflexivity.
      * rewrite app_nil_r. reflexivity.
    + rewrite add_params_length, Hlen, length_app. cbn. lia.
    + exists ((k, params) :: converted). split; [constructor; assumption|].
      split; [exact Hnd'|]. split.
      * intros k'. rewrite Hget', <- app_assoc. reflexivity.
      * rewrite Hlen', length_app. cbn. lia.
Qed.

(** The dictionary [_hyperparameters_to_model_params] returns groups the
    converted entries of [hyperparameters] by AutoGluon name: under each
    name it holds the parameters converted for that name, in the order
    of the entries; a name for which there are none is no key; and no
    entry is lost or repeated. *)
Theorem model_params_grouped (hyperparameters : list (string * pyvalue))
    (hyperparameters_space : gmap string space)
    (model_params : list (ag_name * list pyvalue)) :
  to_model_params hyperparameters hyperparameters_space = inr model_params ->
  exists converted,
    Forall2 (fun item kv =>
               convert_item hyperparameters_space (fst item) (snd item) = inr kv)
      hyperparameters converted /\
    NoDup (map fst model_params) /\
    (forall k, dict_get pyvalue k model_params =
               match configurations pyvalue k converted with
               | [] => None
               | l => Some l
               end) /\
    length (concat (map snd model_params)) = length hyperparameters.
Proof.
  unfold _hyperparameters_to_model_params. intros H.
  destruct (model_params_loop_grouped hyperparameters_space hyperparameters
              [] model_params [] (NoDup_nil_2) (fun _ => eq_refl) eq_refl H)
    as (converted & Hall & Hnd & Hget & Hlen).
  exists converted. auto.
Qed.


End Facts.

(** ** The statements on sample data *)

Lemma available_models_monotone_witness :
  sublist
    (get_available_models Samples.automm Samples.pfn string string
       Samples.sample_dict "regression" true false false false)
    (get_available_models Samples.automm Samples.pfn string string
       Samples.sample_dict "regression" false true true true).
Proof.
  apply (available_models_monotone Samples.automm Samples.pfn string string
           Samples.sample_dict "regression" true false false false
           false true true true);
    unfold at_least; intros; reflexivity || assumption.
Defined.

Lemma model_params_grouped_witness :
  _hyperparameters_to_model_params [Samples.lgbm; Samples.automm; Samples.pfn]
    Samples.sample_value string string Samples.sample_dict
    Samples.sample_hyperparameters Samples.sample_space
  = inr [ (ag_str "GBM", ["a/s"; "c"]); (ag_str "custom", ["b"]) ] /\
  NoDup (map fst [ (ag_str "GBM", ["a/s"; "c"]); (ag_str "custom", ["b"]) ]) /\
  length (concat (map snd
            [ (ag_str "GBM", ["a/s"; "c"]); (ag_str "custom", ["b"]) ]))
  = length Samples.sample_hyperparameters.
Proof.
  assert (H : _hyperparameters_to_model_params
                [Samples.lgbm; Samples.automm; Samples.pfn]
                Samples.sample_value string string Samples.sample_dict
                Samples.sample_hyperparameters Samples.sample_space
              = inr [ (ag_str "GBM", ["a/s"; "c"]); (ag_str "custom", ["b"]) ]).
  { vm_compute. reflexivity. }
  split; [exact H|].
  destruct (model_params_grouped _ _ _ _ _ _ _ _ H)
    as (converted & _ & Hnd & _ & Hlen).
  split; [exact Hnd | exact Hlen].
Defined.


End AutogluonFacts.
